(** * Query progress store, progress event consumer, query configuration
      store and cost/duration estimator

    A shallow embedding of
    - the zustand store [useQueryProgressStore] (query-progress-store),
    - [handleProgressEvent] of [ProgressTracker.tsx],
    - the zustand store [useQueryStore] of [lib/stores/query-store.ts],
    - [calculateQueryCost] and [estimateQueryDuration] of
      [lib/utils/cost-calculator.ts],
    together with the properties the specification states about them. *)

From Stdlib Require Import ZArith QArith Qabs Qround Lia Lqa SpecFloat.
From stdpp Require Import gmap strings list fin_maps.

Local Open Scope Z_scope.

(** ** JavaScript numbers

    A JavaScript [number] is an IEEE 754 binary64 value.  It is modelled by
    the standard library's [spec_float] at precision 53 and maximal
    exponent 1024, with the arithmetic of [SpecFloat] (round to nearest,
    ties to even). *)
Module Js.

Definition prec : Z := 53.
Definition emax : Z := 1024.

Definition number : Type := spec_float.

Definition NaN : number := S754_nan.

#[global] Instance number_eq_dec : EqDecision number.
Proof. solve_decision. Defined.

(** An integer literal such as [20] or [8]. *)
Definition of_Z (z : Z) : number := binary_normalize prec emax z 0 false.

(** A decimal literal [n / d] with [n > 0], such as [0.15 = 15 / 100]: the
    binary64 value nearest to the quotient, as the lexer of the language and
    [parseFloat] produce it.  The quotient of the two integers is taken
    exactly and rounded once. *)
Definition of_ratio (n d : positive) : number :=
  let '(q, e, l) := SFdiv_core_binary prec emax (Zpos n) 0 (Zpos d) 0 in
  binary_round_aux prec emax false q e l.

Definition add : number -> number -> number := SFadd prec emax.
Definition mul : number -> number -> number := SFmul prec emax.
Definition div : number -> number -> number := SFdiv prec emax.

(** The value of a finite number as a rational; [None] for NaN and the
    infinities. *)
Definition to_Q (x : number) : option Q :=
  match x with
  | S754_zero _ => Some 0%Q
  | S754_finite s m e =>
      let a := (if s then Zneg m else Zpos m) in
      Some (match e with
            | Zneg k => Qmake a (2 ^ k)%positive
            | _ => inject_Z (a * 2 ^ e)
            end)
  | _ => None
  end.

(** [Math.max(a, b)]: NaN if either argument is NaN, [+0] above [-0]. *)
Definition Math_max (a b : number) : number :=
  match SFcompare a b with
  | None => NaN
  | Some Lt => b
  | Some Gt => a
  | Some Eq =>
      match a with
      | S754_zero true => b
      | _ => a
      end
  end.

(** [Math.min(a, b)]: NaN if either argument is NaN, [-0] below [+0]. *)
Definition Math_min (a b : number) : number :=
  match SFcompare a b with
  | None => NaN
  | Some Lt => a
  | Some Gt => b
  | Some Eq =>
      match a with
      | S754_zero false => b
      | _ => a
      end
  end.

(** [Math.round(x)]: the integer nearest to [x], ties towards +infinity;
    NaN, the infinities and the zeros are returned as they are, and a result
    that is zero keeps the sign of [x]. *)
Definition Math_round (x : number) : number :=
  match x with
  | S754_finite s m (Zneg k) =>
      let a := (if s then Zneg m else Zpos m) in
      let q := (2 * a + 2 ^ Zpos k) / (2 * 2 ^ Zpos k) in
      binary_normalize prec emax q 0 s
  | _ => x
  end.

(** *** [Number.prototype.toFixed] and [parseFloat]

    The string that [x.toFixed(f)] returns is kept in structured form:
    either the decimal numeral of [n / 10^f] with an optional minus sign, or
    the string of [x] itself, which the language returns for NaN, for the
    infinities and for [|x| >= 10^21]. *)
Inductive NumberString : Type :=
  | Fixed (negative : bool) (n : Z) (f : nat)
  | Plain (x : number).

Definition pow10 (f : nat) : Q := inject_Z (10 ^ Z.of_nat f).

(** "Let [n] be an integer for which [n / 10^f - x] is as close to zero as
    possible. If there are two such [n], pick the larger [n]."  The two
    candidates are the integers around [x * 10^f]. *)
Definition toFixed_n (x : Q) (f : nat) : Z :=
  let lo := Qfloor (x * pow10 f) in
  let hi := lo + 1 in
  if Qle_bool (Qabs (inject_Z hi / pow10 f - x))
              (Qabs (inject_Z lo / pow10 f - x))
  then hi else lo.

Definition toFixed (x : number) (f : nat) : NumberString :=
  match to_Q x with
  | None => Plain x
  | Some q =>
      if Qle_bool (inject_Z (10 ^ 21)) (Qabs q) then Plain x
      else
        (* "If x < 0, then set s to "-" and x to -x." *)
        let negative := negb (Qle_bool 0 q) in
        Fixed negative (toFixed_n (Qabs q) f) f
  end.

(** The value that a numeral denotes. *)
Definition NumberString_value (s : NumberString) : option Q :=
  match s with
  | Plain x => to_Q x
  | Fixed negative n f =>
      let v := (inject_Z n / pow10 f)%Q in
      Some (if negative then Qopp v else v)
  end.

(** [parseFloat] on the strings above: the number nearest to the numeral.
    The string of a number parses back to that number. *)
Definition parseFloat (s : NumberString) : number :=
  match s with
  | Plain x => x
  | Fixed negative n f =>
      match n with
      | Z0 => S754_zero negative
      | Zpos p =>
          let r := of_ratio p (Z.to_pos (10 ^ Z.of_nat f)) in
          if negative then SFopp r else r
      | Zneg _ => NaN
      end
  end.

(** Values of type [unknown] that arrive in parsed JSON. *)
#[local] Unset Elimination Schemes.
Inductive JsValue : Type :=
  | JsNull
  | JsBool (b : bool)
  | JsNumber (n : number)
  | JsString (s : string)
  | JsArray (l : list JsValue)
  | JsObject (l : list (string * JsValue)).
#[local] Set Elimination Schemes.

End Js.

(** ** The progress store ([useQueryProgressStore]) *)
Module QueryProgressStore.

Inductive QueryStepStatus : Type := idle | active | completed | error.

(** [Record<string, unknown>] *)
Abbreviation Metadata := (gmap string Js.JsValue).

(** An optional field that is absent or [undefined] is [None]. *)
Record QueryProgressStep : Type := {
  id : string;
  label : string;
  detail : option string;
  status : QueryStepStatus;
  startedAt : option Z;
  completedAt : option Z;
  metadata : option Metadata;
}.

Record QueryProgressState : Type := {
  steps : list QueryProgressStep;
  estimatedSeconds : option Js.number;
}.

(** The initial state of [create]. *)
Definition initial : QueryProgressState :=
  {| steps := []; estimatedSeconds := None |}.

(** [{ ...a, ...b }] on optional records: the keys of [b] win. *)
Definition spread (a b : option Metadata) : Metadata :=
  default ∅ b ∪ default ∅ a.

(** [initialize]: the argument carries [id] and [label] only. *)
Definition initialize (new_steps : list (string * string))
    (st : QueryProgressState) : QueryProgressState :=
  {| steps :=
       map (fun step =>
              {| id := fst step; label := snd step; detail := None;
                 status := idle; startedAt := None; completedAt := None;
                 metadata := None |}) new_steps;
     estimatedSeconds := None |}.

(** The metadata of the completion scenario: [{a: 1}], [{b: 2}] and
    [{a: 1, b: 2}]. *)
Definition meta_a : Metadata := {[ "a"%string := Js.JsNumber (Js.of_Z 1) ]}.
Definition meta_b : Metadata := {[ "b"%string := Js.JsNumber (Js.of_Z 2) ]}.
Definition meta_ab : Metadata :=
  <[ "a"%string := Js.JsNumber (Js.of_Z 1) ]>
    {[ "b"%string := Js.JsNumber (Js.of_Z 2) ]}.

(** [Date.now()] is evaluated inside the callback of [steps.map], once for
    each step that matches; [now i] is the reading taken while the step at
    index [i] is visited. *)
Definition Clock : Type := nat -> Z.

Definition startStep (x : string) (detail' : option string) (now : Clock)
    (st : QueryProgressState) : QueryProgressState :=
  {| steps :=
       imap (fun i step =>
               if decide (id step = x)
               then {| id := id step; label := label step;
                       detail := detail';
                       status := active;
                       startedAt := Some (now i);
                       completedAt := None;
                       metadata := metadata step |}
               else step) (steps st);
     estimatedSeconds := estimatedSeconds st |}.

Definition completeStep (x : string) (metadata' : option Metadata)
    (now : Clock) (st : QueryProgressState) : QueryProgressState :=
  {| steps :=
       imap (fun i step =>
               if decide (id step = x)
               then {| id := id step; label := label step;
                       detail := detail step;
                       status := completed;
                       startedAt := startedAt step;
                       completedAt := Some (now i);
                       metadata := Some (spread (metadata step) metadata') |}
               else step) (steps st);
     estimatedSeconds := estimatedSeconds st |}.

(** [message ?? step.detail] *)
Definition failStep (x : string) (message : option string) (now : Clock)
    (st : QueryProgressState) : QueryProgressState :=
  {| steps :=
       imap (fun i step =>
               if decide (id step = x)
               then {| id := id step; label := label step;
                       detail := match message with
                                 | Some m => Some m
                                 | None => detail step
                                 end;
                       status := error;
                       startedAt := startedAt step;
                       completedAt := Some (now i);
                       metadata := metadata step |}
               else step) (steps st);
     estimatedSeconds := estimatedSeconds st |}.

Definition setEstimatedTime (seconds : Js.number)
    (st : QueryProgressState) : QueryProgressState :=
  {| steps := steps st; estimatedSeconds := Some seconds |}.

Definition reset (st : QueryProgressState) : QueryProgressState :=
  {| steps := []; estimatedSeconds := None |}.

(** What [startStep] writes into a step that matches. *)
Definition started (detail' : option string) (t : Z)
    (step : QueryProgressStep) : QueryProgressStep :=
  {| id := id step; label := label step; detail := detail';
     status := active; startedAt := Some t; completedAt := None;
     metadata := metadata step |}.

(** A call of one of the actions that update a run, with its arguments
    ([initialize] and [reset] begin and end a run). *)
Inductive StoreCall : Type :=
  | CallSetEstimatedTime (seconds : Js.number)
  | CallStartStep (x : string) (detail : option string)
  | CallCompleteStep (x : string) (metadata : option Metadata)
  | CallFailStep (x : string) (message : option string).

Definition perform (c : StoreCall) (now : Clock)
    (st : QueryProgressState) : QueryProgressState :=
  match c with
  | CallSetEstimatedTime seconds => setEstimatedTime seconds st
  | CallStartStep x d => startStep x d now st
  | CallCompleteStep x m => completeStep x m now st
  | CallFailStep x msg => failStep x msg now st
  end.

(** The states of a run: [initialize] followed by any number of store
    actions other than [reset]. *)
Inductive Run : QueryProgressState -> Prop :=
  | Run_initialize l st : Run (initialize l st)
  | Run_perform c now st : Run st -> Run (perform c now st).

(** The reading of [startStep] under which an omitted [detail] keeps the
    previous one. *)
Definition startStep_preserves_detail : Prop :=
  forall st x now i s,
    Run st -> steps st !! i = Some s -> id s = x ->
    exists s',
      steps (startStep x None now st) !! i = Some s' /\
      status s' = active /\
      startedAt s' = Some (now i) /\
      detail s' = detail s.

End QueryProgressStore.

(** ** The cost and duration estimator ([cost-calculator.ts]) *)
Module CostCalculator.

Inductive SearchDepth : Type := quick | standard | deep.

Record CostConfig : Type := {
  sources : list string;
  llms : list string;
  depth : SearchDepth;
  maxResults : option Js.number;
}.

(** The two cost tables are object literals; the maps below hold the keys
    that the literals list, their own properties. *)
Definition SOURCE_BASE_COST : gmap string Js.number :=
  list_to_map
    [ ("openalex"%string, Js.of_ratio 15 100);
      ("google-patents"%string, Js.of_ratio 25 100);
      ("pubmed"%string, Js.of_ratio 1 10);
      ("document-vault"%string, Js.of_ratio 5 100) ].

Definition LLM_BASE_COST : gmap string Js.number :=
  list_to_map
    [ ("claude"%string, Js.of_ratio 18 10);
      ("gpt4"%string, Js.of_ratio 32 10);
      ("gemini"%string, Js.of_ratio 12 10);
      ("ollama"%string, Js.of_Z 0) ].

Definition DEPTH_MULTIPLIER (d : SearchDepth) : Js.number :=
  match d with
  | quick => Js.of_ratio 5 10
  | standard => Js.of_Z 1
  | deep => Js.of_ratio 26 10
  end.

Definition MINIMUM_COST : Js.number := Js.of_ratio 5 10.

(** The names that every object literal inherits from [Object.prototype]. *)
Definition Object_prototype_names : list string :=
  [ "constructor"; "hasOwnProperty"; "isPrototypeOf"; "propertyIsEnumerable";
    "toLocaleString"; "toString"; "valueOf"; "__proto__";
    "__defineGetter__"; "__defineSetter__"; "__lookupGetter__";
    "__lookupSetter__" ]%string.

(** What the property read [T[key]] gives on a table [T]: the number of an
    own key; for a name that is inherited, the inherited member (a function,
    or the prototype object for "__proto__"); [undefined] otherwise. *)
Inductive Property : Type :=
  | OwnNumber (n : Js.number)
  | InheritedMember
  | Undefined.

Definition get (T : gmap string Js.number) (key : string) : Property :=
  match T !! key with
  | Some n => OwnNumber n
  | None =>
      if decide (key ∈ Object_prototype_names) then InheritedMember
      else Undefined
  end.

(** The value of [T[key] ?? fallback]: only [undefined] falls back. *)
Inductive Operand : Type :=
  | NumberOperand (n : Js.number)
  | MemberOperand.

Definition nullish (p : Property) (fallback : Js.number) : Operand :=
  match p with
  | OwnNumber n => NumberOperand n
  | InheritedMember => MemberOperand
  | Undefined => NumberOperand fallback
  end.

(** What [total + x] accumulates: the sum of numbers, or, once a member or
    a string is an operand, the string that concatenates the operands.  Such
    a string contains the text of the member ("function ... { [native
    code] }" or "[object Object]"), so it is not a numeric literal. *)
Inductive Accumulated : Type :=
  | Sum (n : Js.number)
  | Text.

Definition plus_operand (total : Accumulated) (x : Operand) : Accumulated :=
  match total, x with
  | Sum a, NumberOperand b => Sum (Js.add a b)
  | _, _ => Text
  end.

(** [sourceCost + llmCost] *)
Definition plus (a b : Accumulated) : Accumulated :=
  match a, b with
  | Sum x, Sum y => Sum (Js.add x y)
  | _, _ => Text
  end.

(** The conversion that [*] applies to its left operand: a string that is
    not a numeric literal converts to NaN. *)
Definition ToNumber (a : Accumulated) : Js.number :=
  match a with
  | Sum n => n
  | Text => Js.NaN
  end.

(** The value that is handed to [toFixed]:
    [Math.max(MINIMUM_COST, totalCost)]. *)
Definition flooredCost (config : CostConfig) : Js.number :=
  let maxResults := default (Js.of_Z 20) (maxResults config) in
  let sourceCost :=
    fold_left
      (fun total source =>
         plus_operand total
           (nullish (get SOURCE_BASE_COST source) (Js.of_ratio 1 10)))
      (sources config) (Sum (Js.of_Z 0)) in
  let llmCost :=
    fold_left
      (fun total llm =>
         plus_operand total (nullish (get LLM_BASE_COST llm) (Js.of_Z 1)))
      (llms config) (Sum (Js.of_Z 0)) in
  let resultsMultiplier := Js.Math_max (Js.of_Z 1) (Js.div maxResults (Js.of_Z 20)) in
  let depthMultiplier := DEPTH_MULTIPLIER (depth config) in
  let totalCost :=
    Js.mul (Js.mul (ToNumber (plus sourceCost llmCost)) depthMultiplier)
           resultsMultiplier in
  Js.Math_max MINIMUM_COST totalCost.

Definition calculateQueryCost (config : CostConfig) : Js.number :=
  Js.parseFloat (Js.toFixed (flooredCost config) 2).

Definition estimateQueryDuration (depth : SearchDepth)
    (sourcesCount llmCount : Js.number) : Js.number :=
  let base :=
    match depth with
    | quick => Js.of_Z 8
    | standard => Js.of_Z 18
    | deep => Js.of_Z 45
    end in
  let sourceAdjustment := Js.Math_min (Js.of_Z 12) (Js.mul sourcesCount (Js.of_ratio 25 10)) in
  let llmAdjustment := Js.Math_min (Js.of_Z 10) (Js.mul llmCount (Js.of_Z 3)) in
  Js.Math_round (Js.add (Js.add base sourceAdjustment) llmAdjustment).


(** *** The estimator as the specification words it *)

(** Step 1: the base cost of a source, 0.1 for one that the table lacks. *)
Definition spec_sourceBaseCost (source : string) : Js.number :=
  match SOURCE_BASE_COST !! source with
  | Some c => c
  | None => Js.of_ratio 1 10
  end.

(** Step 2: the base cost of a model, 1.0 for one that the table lacks. *)
Definition spec_llmBaseCost (llm : string) : Js.number :=
  match LLM_BASE_COST !! llm with
  | Some c => c
  | None => Js.of_Z 1
  end.

(** "Sum over all selected": the costs are added one after the other,
    starting from zero. *)
Fixpoint spec_sum_from (acc : Js.number) (costs : list Js.number) : Js.number :=
  match costs with
  | [] => acc
  | c :: costs => spec_sum_from (Js.add acc c) costs
  end.

Definition spec_sum (costs : list Js.number) : Js.number :=
  spec_sum_from (Js.of_Z 0) costs.

(** Step 3: quick 0.5, standard 1.0, deep 2.6. *)
Definition spec_depthMultiplier (d : SearchDepth) : Js.number :=
  match d with
  | quick => Js.of_ratio 5 10
  | standard => Js.of_ratio 10 10
  | deep => Js.of_ratio 26 10
  end.

(** Step 4: [max(1, maxResults / 20)]. *)
Definition spec_resultsMultiplier (maxResults : Js.number) : Js.number :=
  Js.Math_max (Js.of_Z 1) (Js.div maxResults (Js.of_Z 20)).

(** Step 5: the total, floored at a minimum of 0.5. *)
Definition spec_flooredTotal (sources llms : list string) (d : SearchDepth)
    (maxResults : Js.number) : Js.number :=
  let sourceCostSum := spec_sum (map spec_sourceBaseCost sources) in
  let llmCostSum := spec_sum (map spec_llmBaseCost llms) in
  let total :=
    Js.mul (Js.mul (Js.add sourceCostSum llmCostSum) (spec_depthMultiplier d))
           (spec_resultsMultiplier maxResults) in
  Js.Math_max (Js.of_ratio 5 10) total.



(** The duration for whole numbers of sources and models, in integer
    arithmetic: twice the sum is [2 * base + min(24, 5 * s) + min(20, 6 * l)],
    and rounding half up adds one before halving. *)
Definition duration_Z (d : SearchDepth) (s l : Z) : Z :=
  let base := match d with quick => 8 | standard => 18 | deep => 45 end in
  (2 * base + Z.min 24 (5 * s) + Z.min 20 (6 * l) + 1) / 2.

(** *** The total in exact decimal arithmetic

    The numbers of the tables and the multipliers as the decimals that the
    source writes, and steps 1 to 5 of the specification on rationals. *)
Definition SOURCE_BASE_COST_decimal : gmap string Q :=
  list_to_map
    [ ("openalex"%string, 15 # 100); ("google-patents"%string, 25 # 100);
      ("pubmed"%string, 1 # 10); ("document-vault"%string, 5 # 100) ]%Q.

Definition LLM_BASE_COST_decimal : gmap string Q :=
  list_to_map
    [ ("claude"%string, 18 # 10); ("gpt4"%string, 32 # 10);
      ("gemini"%string, 12 # 10); ("ollama"%string, 0) ]%Q.

Definition DEPTH_MULTIPLIER_decimal (d : SearchDepth) : Q :=
  match d with
  | quick => 1 # 2
  | standard => 1
  | deep => 26 # 10
  end.

Definition Q_max (a b : Q) : Q := if Qle_bool a b then b else a.

Definition decimal_sum (T : gmap string Q) (fallback : Q) (ids : list string) : Q :=
  fold_right (fun id acc => (default fallback (T !! id) + acc)%Q) 0%Q ids.

(** The floored total of a configuration whose [maxResults] is a finite
    number (20 when omitted). *)
Definition decimal_flooredTotal (config : CostConfig) : option Q :=
  match Js.to_Q (default (Js.of_Z 20) (maxResults config)) with
  | Some mr =>
      Some (Q_max (1 # 2)
              ((decimal_sum SOURCE_BASE_COST_decimal (1 # 10) (sources config)
                + decimal_sum LLM_BASE_COST_decimal 1 (llms config))
               * DEPTH_MULTIPLIER_decimal (depth config)
               * Q_max 1 (mr / 20))%Q)
  | None => None
  end.

(** A decimal rounded half up to a whole number of cents. *)
Definition half_up_cents (q : Q) : Z := Qfloor (q * 100 + (1 # 2)).

(** The reading of the rounding under which the result is the decimal
    total rounded half up at the cent boundary. *)
Definition rounds_decimal_total_half_up : Prop :=
  forall config q,
    decimal_flooredTotal config = Some q ->
    calculateQueryCost config
    = Js.parseFloat (Js.Fixed false (half_up_cents q) 2).

End CostCalculator.

(** ** The progress event consumer ([ProgressTracker.tsx]) *)
Module ProgressTracker.

Import QueryProgressStore.

Definition DEFAULT_STEPS : list (string * string) :=
  [ ("intent", "Refining query intent");
    ("openalex", "Searching OpenAlex");
    ("patents", "Searching Google Patents");
    ("pubmed", "Searching PubMed");
    ("llm", "Analyzing with LLMs") ]%string.

(** [ProgressEventPayload = EstimateEvent | StepEvent].  A parsed message
    whose [type] is ["estimate"] is an [EstimateEvent]; every other message
    is read as a [StepEvent], whose [status] is whatever string the message
    carries. *)
Inductive ProgressEventPayload : Type :=
  | EstimateEvent (seconds : Js.number)
  | StepEvent (stepId : string) (status : string) (detail : option string)
      (metadata : option Metadata).

(** The body of [handleProgressEvent]: which action is called, if any. *)
Definition dispatch (payload : ProgressEventPayload) : option StoreCall :=
  match payload with
  | EstimateEvent seconds => Some (CallSetEstimatedTime seconds)
  | StepEvent stepId status detail metadata =>
      if decide (status = "active"%string) then
        Some (CallStartStep stepId detail)
      else if decide (status = "completed"%string) then
        Some (CallCompleteStep stepId metadata)
      else if decide (status = "error"%string) then
        Some (CallFailStep stepId (Some (default "Step failed"%string detail)))
      else None
  end.

Definition handleProgressEvent (payload : ProgressEventPayload) (now : Clock)
    (st : QueryProgressState) : QueryProgressState :=
  match dispatch payload with
  | Some c => perform c now st
  | None => st
  end.

(** The messages of the stream, applied in the order received; each comes
    with the clock readings of the moment it is handled. *)
Definition onmessages (events : list (ProgressEventPayload * Clock))
    (st : QueryProgressState) : QueryProgressState :=
  fold_left (fun st ev => handleProgressEvent (fst ev) (snd ev) st) events st.

End ProgressTracker.

(** ** The query configuration store ([query-store.ts]) *)
Module QueryStore.

Import CostCalculator (SearchDepth, quick, standard, deep).

Record QueryOptions : Type := {
  searchDepth : SearchDepth;
  maxResults : Js.number;
  dateFrom : option string;
  dateTo : option string;
  openAccessOnly : bool;
}.

(** [Partial<QueryOptions>]: [None] is a key that the object does not have.
    The optional fields may be present with the value [undefined]
    ([Some None]), as in [setOptions({ dateFrom: value.dateFrom })]. *)
Module Partial.
Record t : Type := {
  searchDepth : option SearchDepth;
  maxResults : option Js.number;
  dateFrom : option (option string);
  dateTo : option (option string);
  openAccessOnly : option bool;
}.
End Partial.

Record QueryStoreState : Type := {
  query : string;
  sources : list string;
  llms : list string;
  options : QueryOptions;
}.

Definition DEFAULT_STATE : QueryStoreState :=
  {| query := "";
     sources := ["openalex"; "pubmed"]%string;
     llms := ["claude"%string];
     options := {| searchDepth := standard;
                   maxResults := Js.of_Z 20;
                   dateFrom := None;
                   dateTo := None;
                   openAccessOnly := false |} |}.

Definition setQuery (q : string) (st : QueryStoreState) : QueryStoreState :=
  {| query := q; sources := sources st; llms := llms st;
     options := options st |}.

(** [includes] then [filter] or append. *)
Definition toggle (x : string) (l : list string) : list string :=
  if decide (x ∈ l) then filter (fun s => s ≠ x) l else l ++ [x].

Definition toggleSource (source : string) (st : QueryStoreState)
    : QueryStoreState :=
  {| query := query st; sources := toggle source (sources st);
     llms := llms st; options := options st |}.

Definition toggleLLM (llm : string) (st : QueryStoreState)
    : QueryStoreState :=
  {| query := query st; sources := sources st;
     llms := toggle llm (llms st); options := options st |}.

Definition setSources (l : list string) (st : QueryStoreState)
    : QueryStoreState :=
  {| query := query st; sources := l; llms := llms st;
     options := options st |}.

Definition setLLMs (l : list string) (st : QueryStoreState)
    : QueryStoreState :=
  {| query := query st; sources := sources st; llms := l;
     options := options st |}.

(** [{ ...state.options, ...options }] *)
Definition spread_options (old : QueryOptions) (new : Partial.t)
    : QueryOptions :=
  {| searchDepth := default (searchDepth old) (Partial.searchDepth new);
     maxResults := default (maxResults old) (Partial.maxResults new);
     dateFrom := default (dateFrom old) (Partial.dateFrom new);
     dateTo := default (dateTo old) (Partial.dateTo new);
     openAccessOnly := default (openAccessOnly old) (Partial.openAccessOnly new) |}.

Definition setOptions (new : Partial.t) (st : QueryStoreState)
    : QueryStoreState :=
  {| query := query st; sources := sources st; llms := llms st;
     options := spread_options (options st) new |}.

Definition reset (st : QueryStoreState) : QueryStoreState := DEFAULT_STATE.

End QueryStore.

(** ** Further numbers: subtraction and truthiness *)
Module JsExtra.

Definition sub : Js.number -> Js.number -> Js.number := SFsub Js.prec Js.emax.

(** [ToBoolean] on a number: the zeros and NaN are falsy. *)
Definition truthy (x : Js.number) : bool :=
  match x with
  | S754_zero _ | S754_nan => false
  | _ => true
  end.

(** [a < b] on numbers; false when either is NaN. *)
Definition lt : Js.number -> Js.number -> bool := SFltb.

(** The numbers with a clear sign bit: [+0], the positive finite numbers
    and [+Infinity]. *)
Definition nonnegative (x : Js.number) : Prop :=
  match x with
  | S754_zero false | S754_infinity false | S754_finite false _ _ => True
  | _ => False
  end.

(** A zero, a finite number or an infinity with the sign [sx]. *)
Definition has_sign (sx : bool) (x : Js.number) : Prop :=
  match x with
  | S754_zero s | S754_infinity s | S754_finite s _ _ => s = sx
  | S754_nan => False
  end.

End JsExtra.

(** ** A run, step by step *)
Module ProgressRun.

Import QueryProgressStore ProgressTracker.

(** The steps as [initialize] is given them: ids and labels, in order. *)
Definition identity (l : list QueryProgressStep) : list (string * string) :=
  map (fun s => (id s, label s)) l.

(** The id that a call addresses; [setEstimatedTime] addresses none. *)
Definition target (c : StoreCall) : option string :=
  match c with
  | CallSetEstimatedTime _ => None
  | CallStartStep x _ | CallCompleteStep x _ | CallFailStep x _ => Some x
  end.

(** The status that a call writes into the steps it matches. *)
Definition call_status (c : StoreCall) : option QueryStepStatus :=
  match c with
  | CallSetEstimatedTime _ => None
  | CallStartStep _ _ => Some active
  | CallCompleteStep _ _ => Some completed
  | CallFailStep _ _ => Some error
  end.

(** Whether an event makes the consumer call an action on the steps of
    id [x]. *)
Definition addressed (x : string) (payload : ProgressEventPayload) : bool :=
  match dispatch payload with
  | Some c => bool_decide (target c = Some x)
  | None => false
  end.

(** What a call does to one step, [t] being the clock reading taken for
    that step: the body of the callback that the action maps over the
    list. *)
Definition on_step (c : StoreCall) (t : Z) (s : QueryProgressStep)
    : QueryProgressStep :=
  match c with
  | CallSetEstimatedTime _ => s
  | CallStartStep x d =>
      if decide (id s = x) then started d t s else s
  | CallCompleteStep x m =>
      if decide (id s = x)
      then {| id := id s; label := label s; detail := detail s;
              status := completed; startedAt := startedAt s;
              completedAt := Some t;
              metadata := Some (spread (metadata s) m) |}
      else s
  | CallFailStep x msg =>
      if decide (id s = x)
      then {| id := id s; label := label s;
              detail := match msg with Some m => Some m | None => detail s end;
              status := error; startedAt := startedAt s;
              completedAt := Some t;
              metadata := metadata s |}
      else s
  end.

(** What an event does to the step at index [i]. *)
Definition event_on_step (i : nat) (s : QueryProgressStep)
    (ev : ProgressEventPayload * Clock) : QueryProgressStep :=
  match dispatch (fst ev) with
  | Some c => on_step c (snd ev i) s
  | None => s
  end.

(** Two calls that do not address the same id and are not both
    [setEstimatedTime]. *)
Definition independent (c1 c2 : StoreCall) : Prop :=
  match target c1, target c2 with
  | Some x, Some y => x ≠ y
  | None, None => False
  | _, _ => True
  end.

(** A step with the readings of its timestamps forgotten: what is kept is
    whether each timestamp is set. *)
Definition erase_times (s : QueryProgressStep) : QueryProgressStep :=
  {| id := id s; label := label s; detail := detail s; status := status s;
     startedAt := (fun _ => 0) <$> startedAt s;
     completedAt := (fun _ => 0) <$> completedAt s;
     metadata := metadata s |}.

(** The readings taken for a step never go back from one event to a later
    one. *)
Definition clocks_ordered (i : nat)
    (evs : list (ProgressEventPayload * Clock)) : Prop :=
  forall k1 k2 e1 e2,
    (k1 < k2)%nat -> evs !! k1 = Some e1 -> evs !! k2 = Some e2 ->
    snd e1 i <= snd e2 i.

(** The timestamps of a step are readings of events that have been
    handled, and a completion never lies before the start. *)
Definition stamped (i : nat) (evs : list (ProgressEventPayload * Clock))
    (s : QueryProgressStep) : Prop :=
  (forall a, startedAt s = Some a ->
     exists k e, evs !! k = Some e /\ a = snd e i) /\
  (forall b, completedAt s = Some b ->
     exists k e, evs !! k = Some e /\ b = snd e i) /\
  (forall a b, startedAt s = Some a -> completedAt s = Some b -> a <= b).

End ProgressRun.

(** ** What the tracker shows ([ProgressTracker.tsx]) *)
Module ProgressView.

Import QueryProgressStore ProgressTracker.

#[global] Instance QueryStepStatus_eq_dec : EqDecision QueryStepStatus.
Proof. solve_decision. Defined.

(** [steps.filter((step) => step.status === "completed").length] *)
Definition completedSteps (l : list QueryProgressStep) : nat :=
  length (filter (fun step => status step = completed) l).

(** [Math.round((completedSteps / steps.length) * 100)] *)
Definition progressPercent (l : list QueryProgressStep) : Js.number :=
  Js.Math_round
    (Js.mul (Js.div (Js.of_Z (Z.of_nat (completedSteps l)))
                    (Js.of_Z (Z.of_nat (length l))))
            (Js.of_Z 100)).

(** The percentage in integer arithmetic, rounded half up. *)
Definition percent_Z (k n : Z) : Z := (200 * k + n) / (2 * n).

(** [Math.round((Date.now() - startedAt) / 1000)] *)
Definition elapsedSeconds (now startedAt : Js.number) : Js.number :=
  Js.Math_round (Js.div (JsExtra.sub now startedAt) (Js.of_Z 1000)).

(** [estimated ? Math.max(0, estimated - elapsedSeconds) : null] *)
Definition remainingSeconds (estimated : option Js.number)
    (elapsed : Js.number) : option Js.number :=
  match estimated with
  | Some e =>
      if JsExtra.truthy e
      then Some (Js.Math_max (Js.of_Z 0) (JsExtra.sub e elapsed))
      else None
  | None => None
  end.

End ProgressView.

(** ** [cn] *)
Module Utils.

(** An argument of [cn]: a string, or one of [undefined], [null] and
    [false] ([None]). *)
Definition ClassValue : Type := option string.

(** [Boolean(c)]: the empty string is falsy as well. *)
Definition Boolean (c : ClassValue) : Prop :=
  match c with
  | Some s => s ≠ ""%string
  | None => False
  end.

#[global] Instance Boolean_dec c : Decision (Boolean c).
Proof. destruct c as [s|]; simpl; apply _. Defined.

(** [Array.prototype.join] *)
Fixpoint join (sep : string) (l : list string) : string :=
  match l with
  | [] => ""
  | [x] => x
  | x :: l' => x +:+ sep +:+ join sep l'
  end.

(** [classes.filter(Boolean).join(" ")] *)
Definition cn (classes : list ClassValue) : string :=
  join " " (map (default ""%string) (filter Boolean classes)).

End Utils.

(** ** The query form ([QueryBuilder]) *)
Module QueryBuilder.

Import CostCalculator (SearchDepth, quick, standard, deep).

(** The values of the form as its [watch] callback receives them: every
    field may be missing. *)
Record FormValues : Type := {
  query : option string;
  sources : option (list string);
  llms : option (list string);
  searchDepth : option SearchDepth;
  maxResults : option Js.number;
  openAccessOnly : option bool;
  dateFrom : option string;
  dateTo : option string;
}.

(** The effect that copies the form into the store on every change. *)
Definition syncToStore (value : FormValues) (st : QueryStore.QueryStoreState)
    : QueryStore.QueryStoreState :=
  QueryStore.setOptions
    {| QueryStore.Partial.searchDepth := Some (default standard (searchDepth value));
       QueryStore.Partial.maxResults := Some (default (Js.of_Z 20) (maxResults value));
       QueryStore.Partial.dateFrom := Some (dateFrom value);
       QueryStore.Partial.dateTo := Some (dateTo value);
       QueryStore.Partial.openAccessOnly := Some (default false (openAccessOnly value)) |}
    (QueryStore.setLLMs (default [] (llms value))
       (QueryStore.setSources (default [] (sources value))
          (QueryStore.setQuery (default ""%string (query value)) st))).

(** [toggleArrayValue]: the list that is written back into the field. *)
Fixpoint without (value : string) (current : list string) : list string :=
  match current with
  | [] => []
  | item :: rest =>
      if String.eqb item value then without value rest
      else item :: without value rest
  end.

Fixpoint includes (value : string) (current : list string) : bool :=
  match current with
  | [] => false
  | item :: rest => String.eqb item value || includes value rest
  end.

Definition toggleArrayValue (current : list string) (value : string)
    : list string :=
  if includes value current then without value current
  else current ++ [value].

(** What the storage key of the templates holds: nothing, the text of a
    list of templates, or a text that does not parse to a list. *)
Inductive TemplateStorage (T : Type) : Type :=
  | Missing
  | Templates (l : list T)
  | Corrupt.
Arguments Missing {T}.
Arguments Templates {T} l.
Arguments Corrupt {T}.

(** [handleSaveTemplate]: the new template goes first and ten are kept; a
    missing key reads as the empty list, and when the stored text does not
    parse to a list the error is logged and nothing is written. *)
Definition handleSaveTemplate {T : Type} (values : T)
    (stored : TemplateStorage T) : TemplateStorage T :=
  match stored with
  | Missing => Templates (take 10 [values])
  | Templates l => Templates (take 10 (values :: l))
  | Corrupt => Corrupt
  end.

(** Saving several templates one after the other. *)
Definition saveAll {T : Type} (vs : list T) (stored : TemplateStorage T)
    : TemplateStorage T :=
  fold_left (fun st v => handleSaveTemplate v st) vs stored.

(** The form with another list of sources. *)
Definition with_sources (l : list string) (value : FormValues) : FormValues :=
  {| query := query value; sources := Some l; llms := llms value;
     searchDepth := searchDepth value; maxResults := maxResults value;
     openAccessOnly := openAccessOnly value; dateFrom := dateFrom value;
     dateTo := dateTo value |}.

End QueryBuilder.

(** ** Partial options as updates *)
Module PartialOptions.

Import QueryStore.

(** The partial object without keys: [{}]. *)
Definition empty : Partial.t :=
  {| Partial.searchDepth := None; Partial.maxResults := None;
     Partial.dateFrom := None; Partial.dateTo := None;
     Partial.openAccessOnly := None |}.

(** [{ ...a, ...b }] on partial objects: the keys of either, those of [b]
    winning. *)
Definition merge (a b : Partial.t) : Partial.t :=
  {| Partial.searchDepth :=
       match Partial.searchDepth b with Some v => Some v | None => Partial.searchDepth a end;
     Partial.maxResults :=
       match Partial.maxResults b with Some v => Some v | None => Partial.maxResults a end;
     Partial.dateFrom :=
       match Partial.dateFrom b with Some v => Some v | None => Partial.dateFrom a end;
     Partial.dateTo :=
       match Partial.dateTo b with Some v => Some v | None => Partial.dateTo a end;
     Partial.openAccessOnly :=
       match Partial.openAccessOnly b with Some v => Some v | None => Partial.openAccessOnly a end |}.

End PartialOptions.

(** * Properties *)

(** ** Progress store *)
Module ProgressStoreFacts.

Import QueryProgressStore.

Lemma lookup_startStep x d now st i :
  steps (startStep x d now st) !! i =
  (fun step => if decide (id step = x) then started d (now i) step else step)
    <$> steps st !! i.
Proof. unfold startStep; simpl. by rewrite list_lookup_imap. Qed.

Lemma lookup_completeStep x m now st i :
  steps (completeStep x m now st) !! i =
  (fun step =>
     if decide (id step = x)
     then {| id := id step; label := label step; detail := detail step;
             status := completed; startedAt := startedAt step;
             completedAt := Some (now i);
             metadata := Some (spread (metadata step) m) |}
     else step) <$> steps st !! i.
Proof. unfold completeStep; simpl. by rewrite list_lookup_imap. Qed.

Lemma lookup_failStep x msg now st i :
  steps (failStep x msg now st) !! i =
  (fun step =>
     if decide (id step = x)
     then {| id := id step; label := label step;
             detail := match msg with Some m => Some m | None => detail step end;
             status := error; startedAt := startedAt step;
             completedAt := Some (now i);
             metadata := metadata step |}
     else step) <$> steps st !! i.
Proof. unfold failStep; simpl. by rewrite list_lookup_imap. Qed.

(** A callback that returns every step as it is leaves the list as it is. *)
Lemma imap_unmatched (f : nat -> QueryProgressStep -> QueryProgressStep)
    (l : list QueryProgressStep) :
  (forall i s, l !! i = Some s -> f i s = s) -> imap f l = l.
Proof.
  intros Hf. apply list_eq; intros i.
  rewrite list_lookup_imap.
  destruct (l !! i) as [s|] eqn:E; simpl; [|done].
  by rewrite (Hf i s E).
Qed.

Lemma absent_id_ne x (l : list QueryProgressStep) i s :
  x ∉ map id l -> l !! i = Some s -> id s ≠ x.
Proof.
  intros Hx Hs Heq. apply Hx. subst x.
  apply list_elem_of_fmap. exists s. split; [done|].
  by eapply list_elem_of_lookup_2.
Qed.

(** C1, as the code has it: for every state with a step of id [x] at index
    [i], [startStep(x)] with [detail] omitted sets the status of that step to
    [active], records the clock reading as [startedAt], clears [completedAt]
    and sets [detail] to [undefined]; [id], [label] and [metadata] stay. *)
Theorem startStep_omitted_detail_cleared st x now i s :
  steps st !! i = Some s -> id s = x ->
  steps (startStep x None now st) !! i =
    Some {| id := id s; label := label s; detail := None;
            status := active; startedAt := Some (now i);
            completedAt := None; metadata := metadata s |}.
Proof.
  intros Hs Hx. rewrite lookup_startStep, Hs. simpl.
  by rewrite decide_True.
Qed.

Lemma startStep_omitted_detail_cleared_witness :
  steps (startStep "a" None (fun _ => 9)
           (startStep "a" (Some "working"%string) (fun _ => 5)
              (initialize [("a", "A")]%string initial))) !! 0%nat =
    Some {| id := "a"; label := "A"; detail := None;
            status := active; startedAt := Some 9;
            completedAt := None; metadata := None |}.
Proof.
  apply (startStep_omitted_detail_cleared
           (startStep "a" (Some "working"%string) (fun _ => 5)
              (initialize [("a", "A")]%string initial))
           "a"%string (fun _ => 9) 0%nat
           (started (Some "working"%string) 5
              {| id := "a"; label := "A"; detail := None; status := idle;
                 startedAt := None; completedAt := None; metadata := None |}));
    reflexivity.
Defined.

(** C1, as the specification words it, fails: in the run obtained by
    [initialize] with one step [a] followed by [startStep(a, "working")],
    the step has the detail "working"; the call [startStep(a)] leaves it
    without a detail.  So an omitted [detail] does not keep the previous
    one. *)
Lemma startStep_omitted_detail_not_preserved :
  let st := startStep "a" (Some "working"%string) (fun _ => 5)
              (initialize [("a", "A")]%string initial) in
  Run st /\
  detail <$> steps st !! 0%nat = Some (Some "working"%string) /\
  detail <$> steps (startStep "a" None (fun _ => 9) st) !! 0%nat = Some None /\
  ~ startStep_preserves_detail.
Proof.
  split; [|split; [reflexivity|split; [reflexivity|]]].
  - apply (Run_perform (CallStartStep "a" (Some "working"%string))).
    apply Run_initialize.
  - intros H.
    destruct (H (startStep "a" (Some "working"%string) (fun _ => 5)
                   (initialize [("a", "A")]%string initial))
                "a"%string (fun _ => 9) 0%nat
                (started (Some "working"%string) 5
                   {| id := "a"; label := "A"; detail := None; status := idle;
                      startedAt := None; completedAt := None;
                      metadata := None |}))
      as (s' & Hs' & _ & _ & Hd).
    + apply (Run_perform (CallStartStep "a" (Some "working"%string))).
      apply Run_initialize.
    + reflexivity.
    + reflexivity.
    + simpl in Hs'. injection Hs' as <-. discriminate Hd.
Qed.

(** The actions of a run never add, remove, reorder or rename steps. *)
Lemma perform_keeps_identity c now st :
  map (fun s => (id s, label s)) (steps (perform c now st))
  = map (fun s => (id s, label s)) (steps st).
Proof.
  apply list_eq; intros i.
  change (map ?f ?l) with (f <$> l). rewrite !list_lookup_fmap.
  destruct c as [sec|x d|x m|x msg]; simpl perform.
  - reflexivity.
  - rewrite lookup_startStep. destruct (steps st !! i) as [s|]; [simpl|done].
    by destruct (decide (id s = x)).
  - rewrite lookup_completeStep. destruct (steps st !! i) as [s|]; [simpl|done].
    by destruct (decide (id s = x)).
  - rewrite lookup_failStep. destruct (steps st !! i) as [s|]; [simpl|done].
    by destruct (decide (id s = x)).
Qed.

(** [initialize] installs exactly the given steps, all idle. *)
Lemma initialize_identity l st :
  map (fun s => (id s, label s)) (steps (initialize l st)) = l /\
  Forall (fun s => status s = idle) (steps (initialize l st)).
Proof.
  unfold initialize; simpl. split.
  - rewrite map_map. simpl.
    induction l as [|[a b] l IH]; simpl; [done|]. by rewrite IH.
  - induction l as [|p l IH]; simpl; constructor; done.
Qed.

(** C3: for every state and every id that no step of the list has, each of
    [startStep], [completeStep] and [failStep] returns the state it was
    given, whatever the other arguments: the step list is unchanged.  The
    three actions are total functions; no input makes them fail. *)
Theorem unmatched_id_is_noop st x d m msg now :
  x ∉ map id (steps st) ->
  startStep x d now st = st /\
  completeStep x m now st = st /\
  failStep x msg now st = st.
Proof.
  intros Hx. destruct st as [l e]; simpl in Hx.
  unfold startStep, completeStep, failStep; simpl.
  repeat split; f_equal; apply imap_unmatched; intros i s Hs;
    rewrite decide_False; try done; by eapply absent_id_ne.
Qed.

Lemma unmatched_id_is_noop_witness :
  let st := initialize [("a", "A"); ("b", "B")]%string initial in
  startStep "z" (Some "d"%string) (fun _ => 7) st = st /\
  completeStep "z" (Some {[ "k"%string := Js.JsNull ]}) (fun _ => 7) st = st /\
  failStep "z" None (fun _ => 7) st = st.
Proof.
  apply unmatched_id_is_noop. simpl.
  intros H. apply list_elem_of_In in H. simpl in H.
  destruct H as [H|[H|[]]]; discriminate H.
Defined.

Lemma lookup_initialize l st0 i s :
  steps (initialize l st0) !! i = Some s ->
  detail s = None /\ status s = idle /\ startedAt s = None /\
  completedAt s = None /\ metadata s = None.
Proof.
  unfold initialize; simpl. intros H.
  match type of H with
  | map ?f ?l' !! _ = _ => change (map f l') with (f <$> l') in H
  end.
  apply list_lookup_fmap_Some in H as (p & -> & _). done.
Qed.

(** The lookups of a shallow merge: a key of the new object takes the new
    value, every other key keeps what it had. *)
Lemma lookup_spread (old new : option Metadata) (k : string) :
  spread old new !! k =
  match default ∅ new !! k with
  | Some v => Some v
  | None => default ∅ old !! k
  end.
Proof.
  unfold spread. rewrite lookup_union.
  destruct (default ∅ new !! k), (default ∅ old !! k); done.
Qed.

Lemma lookup_spread_given (old : option Metadata) (new : Metadata) k :
  spread old (Some new) !! k =
  match new !! k with
  | Some v => Some v
  | None => default ∅ old !! k
  end.
Proof. apply lookup_spread. Qed.

(** C4: in every state with a step of id [x] at index [i] (every run that
    contains such a step), [completeStep(x, {a: 1})] followed by
    [completeStep(x, {b: 2})] leaves that step completed, with metadata in
    which [a] is 1, [b] is 2 and every other key has the value it had; for
    a step without metadata, as every step of a run just initialized is,
    the metadata is [{a: 1, b: 2}].  In general one completion merges
    shallowly: a key of the given metadata takes the given value and every
    other key keeps the value it had. *)
Theorem completeStep_twice_merges_metadata st x now1 now2 i s :
  steps st !! i = Some s -> id s = x ->
  (exists s2 mm,
     steps (completeStep x (Some meta_b) now2
              (completeStep x (Some meta_a) now1 st)) !! i = Some s2 /\
     status s2 = completed /\ metadata s2 = Some mm /\
     mm !! "a"%string = Some (Js.JsNumber (Js.of_Z 1)) /\
     mm !! "b"%string = Some (Js.JsNumber (Js.of_Z 2)) /\
     (forall k, k ≠ "a"%string -> k ≠ "b"%string ->
        mm !! k = default ∅ (metadata s) !! k) /\
     (metadata s = None -> mm = meta_ab)) /\
  (forall st' m now j t,
     steps st' !! j = Some t -> id t = x ->
     exists t' mm,
       steps (completeStep x m now st') !! j = Some t' /\
       metadata t' = Some mm /\
       forall k, mm !! k =
                 match default ∅ m !! k with
                 | Some v => Some v
                 | None => default ∅ (metadata t) !! k
                 end).
Proof.
  intros Hs Hx. split.
  - eexists _, _. rewrite !lookup_completeStep, Hs. simpl.
    destruct (decide (id s = x)) as [_|?]; [simpl|done].
    destruct (decide (id s = x)) as [_|?]; [simpl|done].
    split; [reflexivity|]. split; [reflexivity|]. split; [reflexivity|].
    repeat split.
    + rewrite lookup_spread_given. unfold meta_b.
      rewrite lookup_singleton_ne by done. cbn [from_option Datatypes.id].
      rewrite lookup_spread_given. unfold meta_a.
      by rewrite lookup_singleton_eq.
    + rewrite lookup_spread_given. unfold meta_b.
      by rewrite lookup_singleton_eq.
    + intros k Ha Hb. rewrite lookup_spread_given. unfold meta_b.
      rewrite lookup_singleton_ne by done. cbn [from_option Datatypes.id].
      rewrite lookup_spread_given. unfold meta_a.
      by rewrite lookup_singleton_ne.
    + intros ->. reflexivity.
  - intros st' m now j t Ht Hid.
    eexists _, _. rewrite lookup_completeStep, Ht. simpl.
    rewrite decide_True by done.
    split; [reflexivity|]. split; [reflexivity|].
    intros k. apply lookup_spread.
Qed.

Lemma completeStep_twice_merges_metadata_witness :
  exists s2 mm,
    steps (completeStep "x" (Some meta_b) (fun _ => 20)
             (completeStep "x" (Some meta_a) (fun _ => 10)
                (initialize [("w", "W"); ("x", "X")]%string initial)))
      !! 1%nat = Some s2 /\
    status s2 = completed /\ metadata s2 = Some mm /\
    mm !! "a"%string = Some (Js.JsNumber (Js.of_Z 1)) /\
    mm !! "b"%string = Some (Js.JsNumber (Js.of_Z 2)) /\
    (forall k, k ≠ "a"%string -> k ≠ "b"%string -> mm !! k = None) /\
    (@None Metadata = None -> mm = meta_ab).
Proof.
  apply (proj1 (completeStep_twice_merges_metadata
           (initialize [("w", "W"); ("x", "X")]%string initial) "x"%string
           (fun _ => 10) (fun _ => 20) 1%nat
           {| id := "x"; label := "X"; detail := None; status := idle;
              startedAt := None; completedAt := None; metadata := None |}
           eq_refl eq_refl)).
Defined.

End ProgressStoreFacts.

(** ** Progress event consumer *)
Module ProgressTrackerFacts.

Import QueryProgressStore ProgressTracker.

(** C2: after [initialize] with the steps [a], [b], [c] (on any state), the
    events active(a), completed(a), active(b), error(b, "timeout") and
    estimate(30), handled in this order, leave step [a] completed, step [b]
    in error with detail "timeout", step [c] idle and the estimate at 30. *)
Theorem end_to_end_scenario (la lb lc : string) st0 (c1 c2 c3 c4 c5 : Clock) :
  onmessages
    [ (StepEvent "a" "active" None None, c1);
      (StepEvent "a" "completed" None None, c2);
      (StepEvent "b" "active" None None, c3);
      (StepEvent "b" "error" (Some "timeout"%string) None, c4);
      (EstimateEvent (Js.of_Z 30), c5) ]
    (initialize [("a"%string, la); ("b"%string, lb); ("c"%string, lc)] st0)
  = {| steps :=
         [ {| id := "a"; label := la; detail := None; status := completed;
              startedAt := Some (c1 0%nat); completedAt := Some (c2 0%nat);
              metadata := Some ∅ |};
           {| id := "b"; label := lb; detail := Some "timeout"%string;
              status := error;
              startedAt := Some (c3 1%nat); completedAt := Some (c4 1%nat);
              metadata := None |};
           {| id := "c"; label := lc; detail := None; status := idle;
              startedAt := None; completedAt := None; metadata := None |} ];
       estimatedSeconds := Some (Js.of_Z 30) |}.
Proof.
  unfold onmessages, handleProgressEvent; simpl.
  unfold startStep, completeStep, failStep, setEstimatedTime; simpl.
  unfold spread; simpl. by rewrite (left_id_L ∅ (∪)).
Qed.

(** Every call of [failStep] that the consumer makes carries a message. *)
Lemma dispatch_failStep_has_message payload x msg :
  dispatch payload = Some (CallFailStep x msg) -> exists m, msg = Some m.
Proof.
  destruct payload as [sec|sid st d md]; simpl; [discriminate|].
  repeat case_decide; intros [=]; subst; eauto.
Qed.

(** C10: a step event with status "error" and no detail is handled by
    [failStep(stepId, "Step failed")]: every step of that id ends in error
    with detail "Step failed", whatever detail it had.  No event makes the
    consumer call [failStep] without a message, so the branch of [failStep]
    that keeps the previous detail is not taken through the consumer. *)
Theorem error_event_without_detail stepId md now st :
  handleProgressEvent (StepEvent stepId "error" None md) now st
    = failStep stepId (Some "Step failed"%string) now st /\
  (forall i s,
     steps st !! i = Some s -> id s = stepId ->
     exists s',
       steps (handleProgressEvent (StepEvent stepId "error" None md) now st)
         !! i = Some s' /\
       status s' = error /\ detail s' = Some "Step failed"%string) /\
  (forall payload x msg,
     dispatch payload = Some (CallFailStep x msg) -> msg <> None).
Proof.
  split; [reflexivity|]. split.
  - intros i s Hs Hid. change (handleProgressEvent _ now st)
      with (failStep stepId (Some "Step failed"%string) now st).
    rewrite ProgressStoreFacts.lookup_failStep, Hs. simpl.
    rewrite decide_True by done. eauto.
  - intros payload x msg H.
    destruct (dispatch_failStep_has_message _ _ _ H) as [m ->]. done.
Qed.

Lemma error_event_without_detail_witness :
  exists s',
    steps (handleProgressEvent (StepEvent "b" "error" None None) (fun _ => 4)
             (startStep "b" (Some "searching"%string) (fun _ => 3)
                (initialize [("a", "A"); ("b", "B")]%string initial)))
      !! 1%nat = Some s' /\
    status s' = error /\ detail s' = Some "Step failed"%string.
Proof.
  apply (proj1 (proj2 (error_event_without_detail "b"%string None (fun _ => 4)
           (startStep "b" (Some "searching"%string) (fun _ => 3)
              (initialize [("a", "A"); ("b", "B")]%string initial))))
           1%nat
           (started (Some "searching"%string) 3
              {| id := "b"; label := "B"; detail := None; status := idle;
                 startedAt := None; completedAt := None; metadata := None |}));
    reflexivity.
Defined.

End ProgressTrackerFacts.

(** ** Numbers *)
Module JsFacts.

Import Js.

(** The literals denote the usual binary64 values: 0.1 is
    [0x1.999999999999ap-4], and 0.1 + 0.2 is not 0.3. *)
Example of_ratio_one_tenth :
  of_ratio 1 10 = S754_finite false 7205759403792794 (-56).
Proof. reflexivity. Qed.

Example add_one_tenth_two_tenths :
  add (of_ratio 1 10) (of_ratio 2 10) = of_ratio 30000000000000004 100000000000000000 /\
  add (of_ratio 1 10) (of_ratio 2 10) <> of_ratio 3 10.
Proof. split; [reflexivity|discriminate]. Qed.

Example Math_round_ties :
  Math_round (of_ratio 585 10) = of_Z 59 /\
  Math_round (of_ratio 25 10) = of_Z 3 /\
  Math_round (SFopp (of_ratio 25 10)) = of_Z (-2) /\
  Math_round (SFopp (of_ratio 5 10)) = S754_zero true.
Proof. repeat split. Qed.

Example toFixed_ties :
  toFixed (of_ratio 125 1000) 2 = Fixed false 13 2 /\
  toFixed (of_ratio 1005 1000) 2 = Fixed false 100 2 /\
  toFixed (SFopp (of_ratio 1 1000)) 2 = Fixed true 0 2 /\
  toFixed NaN 2 = Plain NaN.
Proof. repeat split. Qed.

Lemma Qfloor_unique (z : Q) (k : Z) :
  (inject_Z k <= z)%Q -> (z < inject_Z (k + 1))%Q -> Qfloor z = k.
Proof.
  intros Hlo Hhi.
  pose proof (Qfloor_le z) as H1. pose proof (Qlt_floor z) as H2.
  assert (k < Qfloor z + 1) by (rewrite Zlt_Qlt; lra).
  assert (Qfloor z < k + 1) by (rewrite Zlt_Qlt; lra).
  lia.
Qed.

Lemma pow10_pos f : (0 < pow10 f)%Q.
Proof.
  unfold pow10. change 0%Q with (inject_Z 0). rewrite <- Zlt_Qlt.
  apply Z.pow_pos_nonneg; lia.
Qed.

Lemma toFixed_n_half_up (x : Q) (f : nat) :
  toFixed_n x f = Qfloor (x * pow10 f + (1 # 2)).
Proof.
  unfold toFixed_n.
  pose proof (pow10_pos f) as Hp. set (p := pow10 f) in *.
  set (y := (x * p)%Q). set (lo := Qfloor y).
  pose proof (Qfloor_le y) as Hlo. pose proof (Qlt_floor y) as Hhi.
  fold lo in Hlo, Hhi.
  assert (Hx : (x == y / p)%Q) by (unfold y; field; lra).
  assert (Hinv : (0 < / p)%Q) by (apply Qinv_lt_0_compat; exact Hp).
  rewrite inject_Z_plus in Hhi |- *. change (inject_Z 1) with 1%Q in *.
  assert (D1 : ((inject_Z lo + 1) / p - x == (inject_Z lo + 1 - y) * / p)%Q)
    by (rewrite Hx; field; lra).
  assert (D2 : (inject_Z lo / p - x == - ((y - inject_Z lo) * / p))%Q)
    by (rewrite Hx; field; lra).
  assert (P1 : (0 <= (inject_Z lo + 1 - y) * / p)%Q)
    by (apply Qmult_le_0_compat; lra).
  assert (P2 : (0 <= (y - inject_Z lo) * / p)%Q)
    by (apply Qmult_le_0_compat; lra).
  assert (E1 : (Qabs ((inject_Z lo + 1) / p - x) == (inject_Z lo + 1 - y) * / p)%Q)
    by (rewrite D1; apply Qabs_pos; exact P1).
  assert (E2 : (Qabs (inject_Z lo / p - x) == (y - inject_Z lo) * / p)%Q).
  { rewrite D2, Qabs_opp. apply Qabs_pos; exact P2. }
  destruct (Qle_bool _ _) eqn:Hb.
  - apply Qle_bool_iff in Hb. rewrite E1, E2 in Hb.
    apply Qmult_le_r in Hb; [|exact Hinv].
    symmetry. apply Qfloor_unique; rewrite ?inject_Z_plus;
      change (inject_Z 1) with 1%Q; lra.
  - assert (Hn : ~ (Qabs ((inject_Z lo + 1) / p - x) <= Qabs (inject_Z lo / p - x))%Q).
    { intros H. apply Qle_bool_iff in H. congruence. }
    rewrite E1, E2 in Hn.
    assert ((y - inject_Z lo) < (inject_Z lo + 1 - y))%Q.
    { apply Qnot_le_lt. intros H. apply Hn. apply Qmult_le_r; [exact Hinv|exact H]. }
    symmetry. apply Qfloor_unique; rewrite ?inject_Z_plus;
      change (inject_Z 1) with 1%Q; lra.
Qed.

(** Half-up rounding, as bounds: [n - 1/2 <= x * 10^f < n + 1/2]. *)
Lemma toFixed_n_bounds (x : Q) (f : nat) :
  (inject_Z (toFixed_n x f) - (1 # 2) <= x * pow10 f)%Q /\
  (x * pow10 f < inject_Z (toFixed_n x f) + (1 # 2))%Q.
Proof.
  rewrite toFixed_n_half_up.
  pose proof (Qfloor_le (x * pow10 f + (1 # 2))) as H1.
  pose proof (Qlt_floor (x * pow10 f + (1 # 2))) as H2.
  rewrite inject_Z_plus in H2. change (inject_Z 1) with 1%Q in H2.
  split; lra.
Qed.

Lemma to_Q_positive m e q :
  to_Q (S754_finite false m e) = Some q -> (0 < q)%Q.
Proof.
  simpl. intros [= <-]. destruct e as [|k|k].
  - unfold Qlt; simpl. lia.
  - unfold Qlt; simpl. pose proof (Z.pow_pos_nonneg 2 (Zpos k)). lia.
  - unfold Qlt; simpl. lia.
Qed.

End JsFacts.

(** ** Query configuration store *)
Module QueryStoreFacts.

Import QueryStore.

(** Filtering out an element that the list lacks keeps the list. *)
Lemma filter_ne_absent x (l : list string) :
  x ∉ l -> filter (fun s => s ≠ x) l = l.
Proof.
  induction l as [|y l IH]; [done|].
  intros [Hxy Hx]%not_elem_of_cons.
  rewrite filter_cons_True by done. by rewrite IH.
Qed.

Lemma toggle_absent x (l : list string) :
  x ∉ l -> toggle x (toggle x l) = l.
Proof.
  intros Hx. unfold toggle at 2. rewrite decide_False by done.
  unfold toggle. rewrite decide_True by (apply elem_of_app; right; by left).
  rewrite filter_app, filter_ne_absent by done.
  rewrite filter_cons_False by (intros H; by apply H).
  by rewrite filter_nil, app_nil_r.
Qed.

Lemma toggle_present x (l : list string) :
  x ∈ l -> toggle x (toggle x l) = filter (fun s => s ≠ x) l ++ [x].
Proof.
  intros Hx. unfold toggle at 2. rewrite decide_True by done.
  unfold toggle. rewrite decide_False; [done|].
  intros H. apply list_elem_of_filter in H as [H _]. by apply H.
Qed.

(** C8: for every state and every source id, two calls of [toggleSource]
    with that id leave a [sources] list with the same members as before,
    and leave the other fields as they were. *)
Theorem toggleSource_twice_same_members st source :
  (forall s,
     s ∈ sources (toggleSource source (toggleSource source st)) <->
     s ∈ sources st) /\
  query (toggleSource source (toggleSource source st)) = query st /\
  llms (toggleSource source (toggleSource source st)) = llms st /\
  options (toggleSource source (toggleSource source st)) = options st.
Proof.
  split; [|done]. intros s. simpl.
  destruct (decide (source ∈ sources st)) as [Hin|Hout].
  - rewrite toggle_present by done.
    rewrite elem_of_app, list_elem_of_filter, list_elem_of_singleton.
    split.
    + intros [[_ H] | ->]; done.
    + intros H. destruct (decide (s = source)); [by right|by left].
  - by rewrite toggle_absent.
Qed.

(** C9: for every state and every partial options object, [setOptions]
    merges the partial into the options: a field that the partial does not
    name keeps its value, a field that it names takes the given value, and
    the rest of the state is untouched. *)
Theorem setOptions_keeps_unnamed_fields st new :
  let st' := setOptions new st in
  (Partial.searchDepth new = None ->
     searchDepth (options st') = searchDepth (options st)) /\
  (Partial.maxResults new = None ->
     maxResults (options st') = maxResults (options st)) /\
  (Partial.dateFrom new = None ->
     dateFrom (options st') = dateFrom (options st)) /\
  (Partial.dateTo new = None ->
     dateTo (options st') = dateTo (options st)) /\
  (Partial.openAccessOnly new = None ->
     openAccessOnly (options st') = openAccessOnly (options st)) /\
  (forall v, Partial.searchDepth new = Some v ->
     searchDepth (options st') = v) /\
  (forall v, Partial.maxResults new = Some v ->
     maxResults (options st') = v) /\
  (forall v, Partial.dateFrom new = Some v -> dateFrom (options st') = v) /\
  (forall v, Partial.dateTo new = Some v -> dateTo (options st') = v) /\
  (forall v, Partial.openAccessOnly new = Some v ->
     openAccessOnly (options st') = v) /\
  query st' = query st /\ sources st' = sources st /\ llms st' = llms st.
Proof.
  simpl. repeat split; try reflexivity; intros;
    match goal with H : _ = _ |- _ => rewrite H end; reflexivity.
Qed.

(** Updating [maxResults] alone does not drop [dateFrom]. *)
Lemma setOptions_keeps_unnamed_fields_witness :
  dateFrom
    (options
       (setOptions
          {| Partial.searchDepth := None;
             Partial.maxResults := Some (Js.of_Z 50);
             Partial.dateFrom := None; Partial.dateTo := None;
             Partial.openAccessOnly := None |}
          (setOptions
             {| Partial.searchDepth := None; Partial.maxResults := None;
                Partial.dateFrom := Some (Some "2020-01-01"%string);
                Partial.dateTo := None; Partial.openAccessOnly := None |}
             DEFAULT_STATE)))
  = Some "2020-01-01"%string.
Proof.
  apply (proj1 (proj2 (proj2 (setOptions_keeps_unnamed_fields
           (setOptions
              {| Partial.searchDepth := None; Partial.maxResults := None;
                 Partial.dateFrom := Some (Some "2020-01-01"%string);
                 Partial.dateTo := None; Partial.openAccessOnly := None |}
              DEFAULT_STATE)
           {| Partial.searchDepth := None;
              Partial.maxResults := Some (Js.of_Z 50);
              Partial.dateFrom := None; Partial.dateTo := None;
              Partial.openAccessOnly := None |})))).
  reflexivity.
Defined.

End QueryStoreFacts.

(** ** Cost and duration estimator *)
Module CostCalculatorFacts.

Import Js CostCalculator.

(** A name that is not inherited reads as the own number or falls back. *)
Lemma nullish_get_plain (T : gmap string number) fallback id :
  id ∉ Object_prototype_names ->
  nullish (get T id) fallback
  = NumberOperand (match T !! id with Some c => c | None => fallback end).
Proof.
  intros H. unfold get. destruct (T !! id); [done|].
  by rewrite decide_False.
Qed.

(** [reduce] over names none of which is inherited is the sum of the mapped
    costs. *)
Lemma reduce_is_sum (T : gmap string number) fallback (l : list string)
    (acc : number) :
  Forall (fun id => id ∉ Object_prototype_names) l ->
  fold_left (fun total x => plus_operand total (nullish (get T x) fallback))
    l (Sum acc)
  = Sum (spec_sum_from acc
           (map (fun x => match T !! x with Some c => c | None => fallback end)
              l)).
Proof.
  intros H. revert acc.
  induction H as [|x l Hx _ IH]; intros acc; simpl; [done|].
  rewrite nullish_get_plain by done. simpl. apply IH.
Qed.

(** Once the accumulator is a string it stays one. *)
Lemma reduce_Text (f : string -> Operand) (l : list string) :
  fold_left (fun total x => plus_operand total (f x)) l Text = Text.
Proof. induction l as [|x l IH]; simpl; [done|]. exact IH. Qed.

(** [reduce] over names one of which is inherited and not an own key gives
    a string. *)
Lemma reduce_inherited (T : gmap string number) fallback (l : list string)
    (acc : Accumulated) id :
  id ∈ l -> get T id = InheritedMember ->
  fold_left (fun total x => plus_operand total (nullish (get T x) fallback))
    l acc
  = Text.
Proof.
  intros Hin Hget. revert acc.
  induction l as [|x l IH]; intros acc; [by apply elem_of_nil in Hin|].
  apply elem_of_cons in Hin as [<-|Hin]; simpl.
  - rewrite Hget. simpl.
    replace (plus_operand acc MemberOperand) with Text by (by destruct acc).
    apply reduce_Text.
  - by apply IH.
Qed.

Lemma DEPTH_MULTIPLIER_spec d : DEPTH_MULTIPLIER d = spec_depthMultiplier d.
Proof. destruct d; reflexivity. Qed.

Lemma flooredCost_spec srcs ls d mr :
  Forall (fun id => id ∉ Object_prototype_names) srcs ->
  Forall (fun id => id ∉ Object_prototype_names) ls ->
  flooredCost {| sources := srcs; llms := ls; depth := d; maxResults := mr |}
  = spec_flooredTotal srcs ls d (default (of_Z 20) mr).
Proof.
  intros Hs Hl.
  unfold flooredCost, spec_flooredTotal, spec_resultsMultiplier, spec_sum.
  cbn [sources llms depth maxResults]. rewrite DEPTH_MULTIPLIER_spec.
  rewrite (reduce_is_sum SOURCE_BASE_COST _ srcs _ Hs).
  rewrite (reduce_is_sum LLM_BASE_COST _ ls _ Hl).
  reflexivity.
Qed.

(** For ids none of which is an inherited name, the value that is rounded
    is the formula of the specification, computed in binary64; an omitted
    [maxResults] counts as 20; the two examples of the specification give
    2.05 and 0.50. *)
Lemma calculateQueryCost_formula srcs ls d mr :
  Forall (fun id => id ∉ Object_prototype_names) srcs ->
  Forall (fun id => id ∉ Object_prototype_names) ls ->
  calculateQueryCost
    {| sources := srcs; llms := ls; depth := d; maxResults := Some mr |}
  = parseFloat (toFixed (spec_flooredTotal srcs ls d mr) 2) /\
  calculateQueryCost
    {| sources := srcs; llms := ls; depth := d; maxResults := None |}
  = parseFloat (toFixed (spec_flooredTotal srcs ls d (of_Z 20)) 2) /\
  calculateQueryCost
    {| sources := ["openalex"; "pubmed"]%string; llms := ["claude"%string];
       depth := standard; maxResults := Some (of_Z 20) |}
  = of_ratio 205 100 /\
  calculateQueryCost
    {| sources := []; llms := []; depth := quick;
       maxResults := Some (of_Z 20) |}
  = of_ratio 50 100.
Proof.
  intros Hs Hl. split; [|split].
  - unfold calculateQueryCost. by rewrite flooredCost_spec.
  - unfold calculateQueryCost. by rewrite flooredCost_spec.
  - split; vm_compute; reflexivity.
Qed.

(** A selection that contains an inherited name, among the sources or among
    the models, makes the cost NaN. *)
Lemma inherited_name_gives_NaN config id :
  (id ∈ sources config /\ get SOURCE_BASE_COST id = InheritedMember) \/
  (id ∈ llms config /\ get LLM_BASE_COST id = InheritedMember) ->
  calculateQueryCost config = NaN.
Proof.
  intros H. unfold calculateQueryCost.
  assert (Hf : flooredCost config = NaN); [|by rewrite Hf].
  unfold flooredCost.
  match goal with
  | |- Math_max _ (mul (mul (ToNumber ?a) _) _) = _ =>
      assert (Ha : a = Text); [|rewrite Ha]
  end.
  - destruct H as [[Hin Hget]|[Hin Hget]].
    + rewrite (reduce_inherited SOURCE_BASE_COST _ _ _ id Hin Hget). done.
    + rewrite (reduce_inherited LLM_BASE_COST _ _ _ id Hin Hget).
      by destruct (fold_left _ _ _).
  - reflexivity.
Qed.

(** C5: for the source id "constructor", which the table does not list, the
    property read gives the member that the table object inherits, the
    fallback 0.1 is not taken, and [calculateQueryCost] returns NaN; the
    formula of the claim, with the default 0.1, gives 0.50. *)
Theorem calculateQueryCost_inherited_name :
  let config := {| sources := ["constructor"%string]; llms := [];
                   depth := standard; maxResults := Some (of_Z 20) |} in
  SOURCE_BASE_COST !! "constructor"%string = None /\
  get SOURCE_BASE_COST "constructor" = InheritedMember /\
  calculateQueryCost config = NaN /\
  parseFloat
    (toFixed (spec_flooredTotal ["constructor"%string] [] standard (of_Z 20)) 2)
  = of_ratio 50 100.
Proof.
  split; [reflexivity|]. split; [reflexivity|]. split.
  - apply (inherited_name_gives_NaN _ "constructor"%string).
    left. split; [by left|reflexivity].
  - vm_compute. reflexivity.
Qed.

(** The floored total is positive whenever it is finite. *)
Lemma flooredCost_positive config q :
  to_Q (flooredCost config) = Some q -> (0 < q)%Q.
Proof.
  unfold flooredCost.
  match goal with
  | |- to_Q (Math_max MINIMUM_COST ?t) = _ -> _ => generalize t
  end.
  intros t. unfold Math_max.
  replace MINIMUM_COST with (S754_finite false 4503599627370496 (-53))
    by (vm_compute; reflexivity).
  destruct t as [s|s| |s m e]; unfold SFcompare.
  - apply JsFacts.to_Q_positive.
  - destruct s; [apply JsFacts.to_Q_positive|discriminate].
  - discriminate.
  - destruct s; [apply JsFacts.to_Q_positive|].
    destruct (-53 ?= e); [|apply JsFacts.to_Q_positive..].
    destruct (Pos.compare_cont Eq 4503599627370496 m);
      apply JsFacts.to_Q_positive.
Qed.

(** A floored total that is not finite is NaN or [+Infinity]. *)
Lemma flooredCost_not_finite config :
  to_Q (flooredCost config) = None ->
  flooredCost config = NaN \/ flooredCost config = S754_infinity false.
Proof.
  unfold flooredCost.
  match goal with
  | |- to_Q (Math_max MINIMUM_COST ?t) = _ -> _ => generalize t
  end.
  intros t. unfold Math_max.
  replace MINIMUM_COST with (S754_finite false 4503599627370496 (-53))
    by (vm_compute; reflexivity).
  destruct t as [s|s| |s m e]; unfold SFcompare.
  - discriminate.
  - destruct s; [discriminate|by right].
  - by left.
  - destruct s; [discriminate|].
    destruct (-53 ?= e); [|discriminate..].
    destruct (Pos.compare_cont Eq 4503599627370496 m); discriminate.
Qed.

Lemma calculateQueryCost_passes_through config :
  match to_Q (flooredCost config) with
  | None => True
  | Some q => (inject_Z (10 ^ 21) <= q)%Q
  end ->
  calculateQueryCost config = flooredCost config.
Proof.
  unfold calculateQueryCost, toFixed.
  destruct (to_Q (flooredCost config)) as [q|] eqn:Hq; [|done].
  intros Hbig. pose proof (flooredCost_positive _ _ Hq) as Hpos.
  assert (Habs : (Qabs q == q)%Q) by (apply Qabs_pos; lra).
  replace (Qle_bool (inject_Z (10 ^ 21)) (Qabs q)) with true; [done|].
  symmetry. apply Qle_bool_iff. rewrite Habs. exact Hbig.
Qed.

(** C6, as the code has it: for every configuration, what is rounded is
    the floored total as computed in binary64.  When that total is a finite
    number [q] below 10^21, [calculateQueryCost] returns the number that the
    numeral with two decimals [n / 100] denotes, where [n] is [q * 100]
    rounded to the nearest integer with ties upwards:
    [n - 1/2 <= q * 100 < n + 1/2]; the rounding is half up on the exact
    value of the binary64 total, not on the decimal total.  When the total
    is not finite, it is NaN or [+Infinity], and then, as for a total of
    10^21 or more, the total itself is returned. *)
Theorem calculateQueryCost_rounds_half_up config :
  (forall q,
     to_Q (flooredCost config) = Some q ->
     (q < inject_Z (10 ^ 21))%Q ->
     let n := Qfloor (q * 100 + (1 # 2)) in
     calculateQueryCost config = parseFloat (Fixed false n 2) /\
     NumberString_value (Fixed false n 2) = Some (inject_Z n / 100)%Q /\
     (inject_Z n - (1 # 2) <= q * 100)%Q /\
     (q * 100 < inject_Z n + (1 # 2))%Q) /\
  (forall q,
     to_Q (flooredCost config) = Some q ->
     (inject_Z (10 ^ 21) <= q)%Q ->
     calculateQueryCost config = flooredCost config) /\
  (to_Q (flooredCost config) = None ->
   calculateQueryCost config = flooredCost config /\
   (flooredCost config = NaN \/ flooredCost config = S754_infinity false)).
Proof.
  split; [|split].
  - intros q Hq Hbig n.
    pose proof (flooredCost_positive _ _ Hq) as Hpos.
    assert (Habs : (Qabs q == q)%Q) by (apply Qabs_pos; lra).
    assert (Hn : toFixed_n (Qabs q) 2 = n).
    { rewrite JsFacts.toFixed_n_half_up. unfold n.
      change (pow10 2) with 100%Q.
      apply Qfloor_comp. rewrite Habs. reflexivity. }
    split; [|split; [reflexivity|]].
    + unfold calculateQueryCost, toFixed. rewrite Hq.
      destruct (Qle_bool (inject_Z (10 ^ 21)) (Qabs q)) eqn:Hb.
      * apply Qle_bool_iff in Hb. rewrite Habs in Hb. lra.
      * rewrite Hn.
        replace (Qle_bool 0 q) with true; [reflexivity|].
        symmetry. apply Qle_bool_iff. lra.
    + pose proof (JsFacts.toFixed_n_bounds (Qabs q) 2) as [H1 H2].
      rewrite Hn in H1, H2. change (pow10 2) with 100%Q in H1, H2.
      rewrite Habs in H1, H2. split; assumption.
  - intros q Hq Hbig. apply calculateQueryCost_passes_through.
    by rewrite Hq.
  - intros Hq. split.
    + apply calculateQueryCost_passes_through. by rewrite Hq.
    + by apply flooredCost_not_finite.
Qed.

(** C6, as the specification words it, fails: for the default selection
    (sources openalex and pubmed, model claude) at depth quick the total is
    (0.15 + 0.10 + 1.80) * 0.5 = 1.025 in decimal arithmetic, which half-up
    rounding at the cent boundary takes to 1.03; the total computed in
    binary64 lies below 1.025 and [calculateQueryCost] returns 1.02. *)
Lemma calculateQueryCost_not_decimal_half_up :
  let config := {| sources := ["openalex"; "pubmed"]%string;
                   llms := ["claude"%string];
                   depth := quick; maxResults := None |} in
  (exists q, decimal_flooredTotal config = Some q /\
             (q == 1025 # 1000)%Q /\ half_up_cents q = 103) /\
  calculateQueryCost config = of_ratio 102 100 /\
  of_ratio 102 100 <> of_ratio 103 100 /\
  ~ rounds_decimal_total_half_up.
Proof.
  split; [|split; [|split]].
  - eexists. split; [reflexivity|]. split; reflexivity.
  - vm_compute. reflexivity.
  - discriminate.
  - intros H.
    specialize (H {| sources := ["openalex"; "pubmed"]%string;
                     llms := ["claude"%string];
                     depth := quick; maxResults := None |} _ eq_refl).
    vm_compute in H. discriminate H.
Qed.

(** With source openalex, model claude and depth quick the total computed
    in binary64 lies just below 0.975, and the function returns 0.97. *)
Lemma calculateQueryCost_rounds_half_up_witness :
  let config := {| sources := ["openalex"%string]; llms := ["claude"%string];
                   depth := quick; maxResults := None |} in
  let q := (8782019273372467 # 9007199254740992)%Q in
  let n := Qfloor (q * 100 + (1 # 2)) in
  calculateQueryCost config = parseFloat (Fixed false n 2) /\
  NumberString_value (Fixed false n 2) = Some (inject_Z n / 100)%Q /\
  (inject_Z n - (1 # 2) <= q * 100)%Q /\
  (q * 100 < inject_Z n + (1 # 2))%Q.
Proof.
  apply (proj1 (calculateQueryCost_rounds_half_up
                  {| sources := ["openalex"%string]; llms := ["claude"%string];
                     depth := quick; maxResults := None |})
           (8782019273372467 # 9007199254740992)%Q).
  - vm_compute. reflexivity.
  - vm_compute. reflexivity.
Defined.


(** For whole numbers of sources and models (up to 60 of each) the
    binary64 computation is exact and agrees with integer arithmetic. *)
Lemma estimateQueryDuration_whole_counts d (s l : nat) :
  (s <= 60)%nat -> (l <= 60)%nat ->
  estimateQueryDuration d (of_Z (Z.of_nat s)) (of_Z (Z.of_nat l))
  = of_Z (duration_Z d (Z.of_nat s) (Z.of_nat l)).
Proof.
  intros Hs Hl.
  assert (H : Forall (fun s' => Forall (fun l' =>
              estimateQueryDuration d (of_Z (Z.of_nat s')) (of_Z (Z.of_nat l'))
              = of_Z (duration_Z d (Z.of_nat s') (Z.of_nat l')))
              (seq 0 61)) (seq 0 61)).
  { destruct d; apply (bool_decide_unpack _); vm_compute; exact I. }
  rewrite Forall_forall in H.
  assert (Hs' : s ∈ seq 0 61) by (apply elem_of_seq; lia).
  specialize (H s Hs'). rewrite Forall_forall in H.
  apply H. apply elem_of_seq; lia.
Qed.

(** When the floored total is not finite, or is at least 10^21, [toFixed]
    returns the string of the number and the function returns the floored
    total as it is. *)
(** One model that the table lacks, depth quick and 45 results: the total
    is exactly 1.125, a tie, and the result is 1.13. *)
Example calculateQueryCost_tie_goes_up :
  let config := {| sources := []; llms := ["some-model"%string];
                   depth := quick; maxResults := Some (of_Z 45) |} in
  to_Q (flooredCost config) = Some (5066549580791808 # 4503599627370496)%Q /\
  ((5066549580791808 # 4503599627370496) == 1125 # 1000)%Q /\
  calculateQueryCost config = of_ratio 113 100.
Proof. repeat split. Qed.

(** A [maxResults] that is NaN makes the result NaN. *)
Example calculateQueryCost_NaN :
  calculateQueryCost
    {| sources := ["openalex"%string]; llms := ["claude"%string];
       depth := standard; maxResults := Some NaN |} = NaN.
Proof. vm_compute. reflexivity. Qed.

(** The total of openalex and claude at depth quick is 0.975 in decimal
    arithmetic; the binary64 total is smaller, and the result is 0.97. *)
Example calculateQueryCost_below_tie :
  let config := {| sources := ["openalex"%string]; llms := ["claude"%string];
                   depth := quick; maxResults := None |} in
  to_Q (flooredCost config) = Some (8782019273372467 # 9007199254740992)%Q /\
  ((8782019273372467 # 9007199254740992) < 975 # 1000)%Q /\
  calculateQueryCost config = of_ratio 97 100.
Proof. repeat split. Qed.

End CostCalculatorFacts.

(** ** Runs of the progress store under event sequences *)
Module ProgressRunFacts.

Import QueryProgressStore ProgressTracker ProgressRun.

(** Every action works on each step separately. *)
Lemma lookup_perform c now st i :
  steps (perform c now st) !! i = on_step c (now i) <$> steps st !! i.
Proof.
  destruct c as [sec|x d|x m|x msg]; simpl perform.
  - simpl. by destruct (steps st !! i).
  - apply ProgressStoreFacts.lookup_startStep.
  - apply ProgressStoreFacts.lookup_completeStep.
  - apply ProgressStoreFacts.lookup_failStep.
Qed.

Lemma lookup_handleProgressEvent payload now st i :
  steps (handleProgressEvent payload now st) !! i
  = (fun s => event_on_step i s (payload, now)) <$> steps st !! i.
Proof.
  unfold handleProgressEvent, event_on_step. simpl.
  destruct (dispatch payload) as [c|].
  - apply lookup_perform.
  - by destruct (steps st !! i).
Qed.

Lemma lookup_onmessages evs st i :
  steps (onmessages evs st) !! i
  = (fun s => fold_left (event_on_step i) evs s) <$> steps st !! i.
Proof.
  revert st. induction evs as [|[payload now] evs IH]; intros st.
  - simpl. by destruct (steps st !! i).
  - unfold onmessages in *. simpl. rewrite IH.
    rewrite lookup_handleProgressEvent.
    by destruct (steps st !! i).
Qed.

Lemma on_step_id c t s : id (on_step c t s) = id s.
Proof.
  destruct c as [sec|x d|x m|x msg]; simpl; try done;
    by destruct (decide (id s = x)).
Qed.

Lemma event_on_step_id i s ev : id (event_on_step i s ev) = id s.
Proof.
  unfold event_on_step. destruct (dispatch (fst ev)); [|done].
  apply on_step_id.
Qed.

Lemma fold_event_on_step_id i evs s :
  id (fold_left (event_on_step i) evs s) = id s.
Proof.
  revert s. induction evs as [|ev evs IH]; intros s; simpl; [done|].
  by rewrite IH, event_on_step_id.
Qed.

(** A call that addresses another id leaves the step as it is. *)
Lemma on_step_other c t s :
  target c ≠ Some (id s) -> on_step c t s = s.
Proof.
  destruct c as [sec|x d|x m|x msg]; simpl; intros H; try done;
    rewrite decide_False; try done; intros <-; by apply H.
Qed.

Lemma event_on_step_other i s ev :
  addressed (id s) (fst ev) = false -> event_on_step i s ev = s.
Proof.
  unfold addressed, event_on_step.
  destruct (dispatch (fst ev)) as [c|]; [|done].
  intros H. apply on_step_other. by apply bool_decide_eq_false in H.
Qed.

(** A call that addresses the id of the step writes its status. *)
Lemma on_step_status c t s st' :
  target c = Some (id s) -> call_status c = Some st' ->
  status (on_step c t s) = st'.
Proof.
  destruct c as [sec|x d|x m|x msg]; simpl; intros [= <-] [= <-];
    by rewrite decide_True.
Qed.

(** X1: whatever events arrive after [initialize], the store holds the
    steps that were given to [initialize], with their ids and labels, in the
    same order: no event adds, removes, reorders or renames a step. *)
Theorem onmessages_keeps_identity l st0 evs :
  identity (steps (onmessages evs (initialize l st0))) = l.
Proof.
  rewrite <- (proj1 (ProgressStoreFacts.initialize_identity l st0)) at 2.
  generalize (initialize l st0). intros st. revert st.
  induction evs as [|[payload now] evs IH]; intros st; [done|].
  unfold onmessages in *. simpl. rewrite IH.
  unfold handleProgressEvent. destruct (dispatch payload) as [c|]; [|done].
  apply ProgressStoreFacts.perform_keeps_identity.
Qed.

(** X2: a sequence of events none of which addresses an id of the current
    step list leaves the step list as it is (late events of an earlier run
    are ignored); only the estimate can change. *)
Theorem stale_events_ignored evs st :
  (forall ev x, ev ∈ evs -> x ∈ map id (steps st) ->
                addressed x (fst ev) = false) ->
  steps (onmessages evs st) = steps st.
Proof.
  intros H. apply list_eq; intros i. rewrite lookup_onmessages.
  destruct (steps st !! i) as [s|] eqn:Hs; [simpl|done]. f_equal.
  assert (Hid : id s ∈ map id (steps st)).
  { apply list_elem_of_fmap. exists s. split; [done|].
    by eapply list_elem_of_lookup_2. }
  clear Hs. induction evs as [|ev evs IH]; simpl; [done|].
  rewrite event_on_step_other.
  - apply IH. intros ev' x Hev. apply H. by right.
  - apply H; [by left|done].
Qed.

Lemma stale_events_ignored_witness :
  steps (onmessages
           [ (StepEvent "old" "completed" None None, fun _ => 7);
             (EstimateEvent (Js.of_Z 12), fun _ => 8);
             (StepEvent "gone" "error" None None, fun _ => 9) ]
           (initialize [("a", "A"); ("b", "B")]%string initial))
  = steps (initialize [("a", "A"); ("b", "B")]%string initial).
Proof.
  apply stale_events_ignored.
  intros ev x Hev Hx.
  apply list_elem_of_In in Hx. simpl in Hx.
  apply list_elem_of_In in Hev. simpl in Hev.
  destruct Hx as [<-|[<-|[]]]; destruct Hev as [<-|[<-|[<-|[]]]]; reflexivity.
Defined.

Lemma fold_own_events i evs s x :
  id s = x ->
  fold_left (event_on_step i) evs s
  = fold_left (event_on_step i)
      (filter (fun ev => addressed x (fst ev)) evs) s.
Proof.
  revert s. induction evs as [|ev evs IH]; intros s Hx; [done|].
  simpl fold_left. rewrite filter_cons.
  destruct (addressed x (fst ev)) eqn:Ha.
  - rewrite decide_True by (by apply Is_true_true_2). simpl fold_left.
    apply IH. by rewrite event_on_step_id.
  - rewrite decide_False by (by apply Is_true_false_2).
    rewrite event_on_step_other by (by rewrite Hx). by apply IH.
Qed.

(** X3: the record of a step after a sequence of events is the one that the
    events addressed to its id produce on their own, in their order: events
    for other steps, estimates and events that are dropped have no part in
    it. *)
Theorem step_depends_on_own_events evs st i s :
  steps st !! i = Some s ->
  steps (onmessages evs st) !! i
  = steps (onmessages
             (filter (fun ev => addressed (id s) (fst ev)) evs) st) !! i.
Proof.
  intros Hs. rewrite !lookup_onmessages, Hs. simpl. f_equal.
  by apply fold_own_events.
Qed.

Lemma step_depends_on_own_events_witness :
  steps (onmessages
           [ (StepEvent "a" "active" None None, fun _ => 1);
             (StepEvent "b" "active" None None, fun _ => 2);
             (EstimateEvent (Js.of_Z 30), fun _ => 3);
             (StepEvent "a" "completed" None None, fun _ => 4) ]
           (initialize [("a", "A"); ("b", "B")]%string initial)) !! 0%nat
  = steps (onmessages
             [ (StepEvent "a" "active" None None, fun _ => 1);
               (StepEvent "a" "completed" None None, fun _ => 4) ]
             (initialize [("a", "A"); ("b", "B")]%string initial)) !! 0%nat.
Proof.
  apply (step_depends_on_own_events
           [ (StepEvent "a" "active" None None, fun _ => 1);
             (StepEvent "b" "active" None None, fun _ => 2);
             (EstimateEvent (Js.of_Z 30), fun _ => 3);
             (StepEvent "a" "completed" None None, fun _ => 4) ]
           (initialize [("a", "A"); ("b", "B")]%string initial) 0%nat
           {| id := "a"; label := "A"; detail := None; status := idle;
              startedAt := None; completedAt := None; metadata := None |}).
  reflexivity.
Defined.

Lemma fold_not_addressed i evs s :
  (forall ev, ev ∈ evs -> addressed (id s) (fst ev) = false) ->
  fold_left (event_on_step i) evs s = s.
Proof.
  induction evs as [|ev evs IH]; intros H; simpl; [done|].
  rewrite event_on_step_other by (apply H; by left).
  apply IH. intros ev' Hev. apply H. by right.
Qed.

(** X4: whatever the order of the events before it, the last event that is
    addressed to a step decides its status: "active" gives active,
    "completed" gives completed and "error" gives error.  A "completed"
    that arrives before any "active" is recorded, and an "active" that
    arrives after a "completed" puts the step back to active. *)
Theorem last_event_decides_status evs1 ev evs2 st i s c sigma :
  steps st !! i = Some s ->
  dispatch (fst ev) = Some c -> target c = Some (id s) ->
  call_status c = Some sigma ->
  (forall ev', ev' ∈ evs2 -> addressed (id s) (fst ev') = false) ->
  status <$> steps (onmessages (evs1 ++ ev :: evs2) st) !! i = Some sigma.
Proof.
  intros Hs Hc Ht Hsig H2. rewrite lookup_onmessages, Hs. simpl. f_equal.
  rewrite fold_left_app. simpl fold_left.
  set (s1 := fold_left (event_on_step i) evs1 s).
  assert (Hid1 : id s1 = id s) by apply fold_event_on_step_id.
  assert (Hid2 : id (event_on_step i s1 ev) = id s)
    by (by rewrite event_on_step_id).
  rewrite fold_not_addressed by (by rewrite Hid2).
  unfold event_on_step. rewrite Hc.
  apply on_step_status; [by rewrite Hid1|done].
Qed.

Lemma last_event_decides_status_witness :
  status <$>
    steps (onmessages
             ([ (StepEvent "a" "completed" None None, fun _ => 1) ] ++
              (StepEvent "a" "active" None None, fun _ => 2) ::
              [ (StepEvent "b" "error" None None, fun _ => 3) ])
             (initialize [("a", "A"); ("b", "B")]%string initial)) !! 0%nat
  = Some active.
Proof.
  apply (last_event_decides_status
           [ (StepEvent "a" "completed" None None, fun _ => 1) ]
           (StepEvent "a" "active" None None, fun _ => 2)
           [ (StepEvent "b" "error" None None, fun _ => 3) ]
           (initialize [("a", "A"); ("b", "B")]%string initial) 0%nat
           {| id := "a"; label := "A"; detail := None; status := idle;
              startedAt := None; completedAt := None; metadata := None |}
           (CallStartStep "a" None) active);
    try reflexivity.
  intros ev' Hev. apply list_elem_of_In in Hev. simpl in Hev.
  destruct Hev as [<-|[]]; reflexivity.
Defined.

Lemma state_eq (a b : QueryProgressState) :
  steps a = steps b -> estimatedSeconds a = estimatedSeconds b -> a = b.
Proof. destruct a, b; simpl; by intros -> ->. Qed.

Lemma estimated_perform c now st :
  estimatedSeconds (perform c now st)
  = match c with
    | CallSetEstimatedTime sec => Some sec
    | _ => estimatedSeconds st
    end.
Proof. by destruct c. Qed.

Lemma on_step_commute c1 c2 t1 t2 s :
  independent c1 c2 ->
  on_step c1 t1 (on_step c2 t2 s) = on_step c2 t2 (on_step c1 t1 s).
Proof.
  unfold independent. intros H.
  destruct (decide (target c1 = Some (id s))) as [H1|H1].
  - assert (H2 : target c2 ≠ Some (id s)).
    { intros H2. rewrite H1, H2 in H. by apply H. }
    rewrite (on_step_other c2 t2 s H2).
    apply eq_sym, on_step_other. by rewrite on_step_id.
  - rewrite (on_step_other c1 t1 s H1).
    apply on_step_other. by rewrite on_step_id.
Qed.

(** What a call writes into a step, the readings apart, depends on the
    step only through what is left of it when its readings are forgotten. *)
Lemma erase_times_on_step c t t' s s' :
  erase_times s = erase_times s' ->
  erase_times (on_step c t s) = erase_times (on_step c t' s').
Proof.
  destruct s as [i1 l1 d1 st1 a1 b1 m1], s' as [i2 l2 d2 st2 a2 b2 m2].
  unfold erase_times at 1 2. simpl.
  intros [= -> -> -> -> Ha Hb ->].
  destruct c as [sec|x d|x m|x msg]; simpl.
  - unfold erase_times; simpl. by rewrite Ha, Hb.
  - destruct (decide (i2 = x)); unfold erase_times; simpl; [done|].
    by rewrite Ha, Hb.
  - destruct (decide (i2 = x)); unfold erase_times; simpl;
      by rewrite Ha, ?Hb.
  - destruct (decide (i2 = x)); unfold erase_times; simpl;
      by rewrite Ha, ?Hb.
Qed.

(** X5: two actions that address different ids, or of which one is
    [setEstimatedTime] and the other addresses a step, give the same state
    in either order, up to the readings of the clock: whatever [Date.now()]
    returns during the four calls, the two final states have the same
    estimate and the same steps, with the same fields set, and differ at
    most in the values of [startedAt] and [completedAt]. *)
Theorem independent_actions_commute c1 c2 (first second first' second' : Clock)
    st :
  independent c1 c2 ->
  let st12 := perform c2 second (perform c1 first st) in
  let st21 := perform c1 second' (perform c2 first' st) in
  map erase_times (steps st12) = map erase_times (steps st21) /\
  estimatedSeconds st12 = estimatedSeconds st21.
Proof.
  intros H. cbv zeta. split.
  - apply list_eq; intros i.
    change (map ?f ?l) with (f <$> l). rewrite !list_lookup_fmap.
    rewrite !lookup_perform.
    destruct (steps st !! i) as [s|]; [simpl|done]. f_equal.
    rewrite (on_step_commute c1 c2 (second' i) (first' i) s H).
    apply erase_times_on_step, erase_times_on_step. reflexivity.
  - rewrite !estimated_perform.
    destruct c1, c2; simpl in *; done.
Qed.

Lemma independent_actions_commute_witness :
  let st := initialize [("a", "A"); ("b", "B")]%string initial in
  let st12 := perform (CallFailStep "b" (Some "x"%string)) (fun _ => 2)
                (perform (CallStartStep "a" None) (fun _ => 1) st) in
  let st21 := perform (CallStartStep "a" None) (fun _ => 4)
                (perform (CallFailStep "b" (Some "x"%string)) (fun _ => 3) st) in
  map erase_times (steps st12) = map erase_times (steps st21) /\
  estimatedSeconds st12 = estimatedSeconds st21.
Proof.
  apply (independent_actions_commute
           (CallStartStep "a" None) (CallFailStep "b" (Some "x"%string))
           (fun _ => 1) (fun _ => 2) (fun _ => 3) (fun _ => 4)).
  simpl. discriminate.
Defined.

(** With the readings kept, the two orders differ: the action that comes
    second takes the later reading. *)
Example independent_actions_readings_differ :
  let st := initialize [("a", "A"); ("b", "B")]%string initial in
  perform (CallFailStep "b" None) (fun _ => 2)
    (perform (CallStartStep "a" None) (fun _ => 1) st)
  <> perform (CallStartStep "a" None) (fun _ => 2)
       (perform (CallFailStep "b" None) (fun _ => 1) st).
Proof. simpl. intros H. discriminate H. Qed.

(** X6: a [startStep] wipes what an earlier [startStep] or [failStep] on the
    same id wrote: the state is the one that the later [startStep] alone
    gives. *)
Theorem startStep_overrides x d now d' msg now' st :
  startStep x d now (startStep x d' now' st) = startStep x d now st /\
  startStep x d now (failStep x msg now' st) = startStep x d now st.
Proof.
  split; apply state_eq; try done; apply list_eq; intros i.
  - rewrite !ProgressStoreFacts.lookup_startStep.
    destruct (steps st !! i) as [s|]; [simpl|done]. f_equal.
    destruct (decide (id s = x)) as [Hx|Hx]; simpl.
    + by rewrite decide_True.
    + by rewrite decide_False.
  - rewrite !ProgressStoreFacts.lookup_startStep,
      ProgressStoreFacts.lookup_failStep.
    destruct (steps st !! i) as [s|]; [simpl|done]. f_equal.
    destruct (decide (id s = x)) as [Hx|Hx]; simpl.
    + by rewrite decide_True.
    + by rewrite decide_False.
Qed.

Lemma estimated_handleProgressEvent payload now st :
  estimatedSeconds (handleProgressEvent payload now st)
  = match payload with
    | EstimateEvent sec => Some sec
    | StepEvent _ _ _ _ => estimatedSeconds st
    end.
Proof.
  unfold handleProgressEvent. destruct payload as [sec|x sta d m]; [done|].
  simpl. repeat case_decide; done.
Qed.

(** X7: step events never touch the estimate: after a sequence of events
    without an estimate the estimate is what it was, and after an estimate
    followed by such a sequence it is the value of that estimate, whatever
    came before. *)
Theorem estimate_is_last_estimate evs2 st :
  (forall ev sec, ev ∈ evs2 -> fst ev ≠ EstimateEvent sec) ->
  estimatedSeconds (onmessages evs2 st) = estimatedSeconds st /\
  (forall evs1 sec now,
     estimatedSeconds (onmessages (evs1 ++ (EstimateEvent sec, now) :: evs2) st)
     = Some sec).
Proof.
  intros H.
  assert (H' : forall st', estimatedSeconds (onmessages evs2 st')
                           = estimatedSeconds st').
  { clear st. induction evs2 as [|[p now] evs IH]; intros st'; [done|].
    unfold onmessages in *. simpl. rewrite IH.
    - rewrite estimated_handleProgressEvent.
      destruct p as [sec|]; [|done].
      exfalso. apply (H (EstimateEvent sec, now) sec); [by left|done].
    - intros ev sec Hev. apply H. by right. }
  split; [apply H'|].
  intros evs1 sec now. unfold onmessages. rewrite fold_left_app. simpl.
  fold (onmessages evs2
          (handleProgressEvent (EstimateEvent sec) now
             (fold_left (fun st ev => handleProgressEvent (fst ev) (snd ev) st)
                evs1 st))).
  by rewrite H'.
Qed.

Lemma estimate_is_last_estimate_witness :
  let st := initialize [("a", "A")]%string initial in
  estimatedSeconds
    (onmessages
       ([ (EstimateEvent (Js.of_Z 90), fun _ => 1) ] ++
        (EstimateEvent (Js.of_Z 30), fun _ => 2) ::
        [ (StepEvent "a" "active" None None, fun _ => 3) ]) st)
  = Some (Js.of_Z 30).
Proof.
  apply (proj2 (estimate_is_last_estimate
                  [ (StepEvent "a" "active" None None, fun _ => 3) ]
                  (initialize [("a", "A")]%string initial)
                  ltac:(intros ev sec Hev; apply list_elem_of_In in Hev;
                        simpl in Hev; destruct Hev as [<-|[]]; discriminate))).
Defined.

Lemma clocks_ordered_snoc i evs ev :
  clocks_ordered i (evs ++ [ev]) ->
  clocks_ordered i evs /\
  (forall k e, evs !! k = Some e -> snd e i <= snd ev i).
Proof.
  intros H. split.
  - intros k1 k2 e1 e2 Hk H1 H2.
    apply (H k1 k2 e1 e2 Hk); by apply lookup_app_l_Some.
  - intros k e He.
    apply (H k (length evs) e ev).
    + by eapply lookup_lt_Some.
    + by apply lookup_app_l_Some.
    + by rewrite list_lookup_middle.
Qed.

Lemma stamped_snoc i evs ev s :
  clocks_ordered i (evs ++ [ev]) ->
  stamped i evs s -> stamped i (evs ++ [ev]) (event_on_step i s ev).
Proof.
  intros Hord (Ha & Hb & Hab).
  destruct (clocks_ordered_snoc _ _ _ Hord) as [_ Hle].
  assert (Hlast : (evs ++ [ev]) !! length evs = Some ev)
    by (by rewrite list_lookup_middle).
  assert (Hkeep : stamped i (evs ++ [ev]) s).
  { split; [|split; [|done]].
    - intros a Hsa. destruct (Ha a Hsa) as (k & e & He & ->).
      exists k, e. split; [by apply lookup_app_l_Some|done].
    - intros b Hsb. destruct (Hb b Hsb) as (k & e & He & ->).
      exists k, e. split; [by apply lookup_app_l_Some|done]. }
  unfold event_on_step. destruct (dispatch (fst ev)) as [c|]; [|done].
  destruct c as [sec|x d|x m|x msg]; simpl; [done|..];
    (destruct (decide (id s = x)) as [_|_]; [|done]).
  - split; [|split]; simpl.
    + intros a [= <-]. eauto.
    + discriminate.
    + discriminate.
  - destruct Hkeep as (Ha' & _ & _).
    split; [done|split]; simpl.
    + intros b [= <-]. eauto.
    + intros a b Hsa [= <-].
      destruct (Ha a Hsa) as (k & e' & He & ->). exact (Hle k e' He).
  - destruct Hkeep as (Ha' & _ & _).
    split; [done|split]; simpl.
    + intros b [= <-]. eauto.
    + intros a b Hsa [= <-].
      destruct (Ha a Hsa) as (k & e' & He & ->). exact (Hle k e' He).
Qed.

Lemma stamped_fold i evs s :
  startedAt s = None -> completedAt s = None ->
  clocks_ordered i evs ->
  stamped i evs (fold_left (event_on_step i) evs s).
Proof.
  intros Hs Hc. induction evs as [|ev evs IH] using rev_ind; intros Hord.
  - simpl. repeat split; intros; congruence.
  - rewrite fold_left_app. simpl.
    apply stamped_snoc; [done|].
    apply IH. by apply (clocks_ordered_snoc i evs ev).
Qed.

(** X8: in a run, when the clock readings taken for a step do not go back
    from one event to the next, the step never has a [completedAt] that
    lies before its [startedAt], whatever events arrive and in whatever
    order. *)
Theorem completedAt_not_before_startedAt l st0 evs i s a b :
  clocks_ordered i evs ->
  steps (onmessages evs (initialize l st0)) !! i = Some s ->
  startedAt s = Some a -> completedAt s = Some b -> a <= b.
Proof.
  intros Hord Hs Ha Hb. rewrite lookup_onmessages in Hs.
  destruct (steps (initialize l st0) !! i) as [s0|] eqn:H0; [|done].
  simpl in Hs. injection Hs as <-.
  destruct (ProgressStoreFacts.lookup_initialize _ _ _ _ H0)
    as (_ & _ & Hs0 & Hc0 & _).
  destruct (stamped_fold i evs s0 Hs0 Hc0 Hord) as (_ & _ & H).
  by apply H.
Qed.

Lemma completedAt_not_before_startedAt_witness : 100 <= 250.
Proof.
  apply (completedAt_not_before_startedAt
           [("a", "A")]%string initial
           [ (StepEvent "a" "active" None None, fun _ => 100);
             (StepEvent "a" "completed" None None, fun _ => 250) ]
           0%nat
           {| id := "a"; label := "A"; detail := None; status := completed;
              startedAt := Some 100; completedAt := Some 250;
              metadata := Some ∅ |}
           100 250); try reflexivity.
  intros k1 k2 e1 e2 Hk H1 H2.
  destruct k1 as [|[|k1]], k2 as [|[|k2]]; simpl in *;
    try lia; try discriminate.
  injection H1 as <-. injection H2 as <-. simpl. lia.
Defined.

Lemma on_step_keeps_key c t s m k :
  metadata s = Some m -> is_Some (m !! k) ->
  exists m', metadata (on_step c t s) = Some m' /\ is_Some (m' !! k).
Proof.
  intros Hm Hk.
  destruct c as [sec|x d|x mt|x msg]; simpl; eauto;
    destruct (decide (id s = x)); simpl; eauto.
  eexists. split; [reflexivity|].
  rewrite ProgressStoreFacts.lookup_spread, Hm. simpl.
  by destruct (default ∅ mt !! k).
Qed.

(** X9: metadata only grows: a key that the metadata of a step has is still
    there after any sequence of events. *)
Theorem metadata_keys_kept evs st i s m k :
  steps st !! i = Some s -> metadata s = Some m -> is_Some (m !! k) ->
  exists s' m',
    steps (onmessages evs st) !! i = Some s' /\
    metadata s' = Some m' /\ is_Some (m' !! k).
Proof.
  intros Hs Hm Hk. rewrite lookup_onmessages, Hs. simpl.
  clear Hs. revert s m Hm Hk.
  induction evs as [|ev evs IH]; intros s m Hm Hk; simpl; [eauto|].
  unfold event_on_step at 2.
  destruct (dispatch (fst ev)) as [c|]; [|eauto].
  destruct (on_step_keeps_key c (snd ev i) s m k Hm Hk) as (m' & Hm' & Hk').
  eauto.
Qed.

Lemma metadata_keys_kept_witness :
  exists s' m',
    steps (onmessages
             [ (StepEvent "a" "active" None None, fun _ => 3);
               (StepEvent "a" "completed" None (Some meta_b), fun _ => 4) ]
             (completeStep "a" (Some meta_a) (fun _ => 2)
                (initialize [("a", "A")]%string initial))) !! 0%nat = Some s' /\
    metadata s' = Some m' /\ is_Some (m' !! "a"%string).
Proof.
  apply (metadata_keys_kept
           [ (StepEvent "a" "active" None None, fun _ => 3);
             (StepEvent "a" "completed" None (Some meta_b), fun _ => 4) ]
           (completeStep "a" (Some meta_a) (fun _ => 2)
              (initialize [("a", "A")]%string initial)) 0%nat
           {| id := "a"; label := "A"; detail := None; status := completed;
              startedAt := None; completedAt := Some 2;
              metadata := Some (spread None (Some meta_a)) |}
           (spread None (Some meta_a)) "a"%string);
    try reflexivity.
  by eexists.
Defined.

End ProgressRunFacts.

(** ** Rounding never yields NaN *)
Module JsExtraFacts.

Import Js JsExtra.

Lemma iter_pos_invariant {A : Type} (f : A -> A) (P : A -> Prop) :
  (forall x, P x -> P (f x)) -> forall p x, P x -> P (SpecFloat.iter_pos f p x).
Proof.
  intros Hf. induction p as [p IH|p IH|]; intros x Hx; simpl.
  - apply IH, IH, Hf, Hx.
  - apply IH, IH, Hx.
  - apply Hf, Hx.
Qed.

Lemma shr_1_nonneg mrs : 0 <= shr_m mrs -> 0 <= shr_m (shr_1 mrs).
Proof.
  destruct mrs as [m r s']. simpl.
  destruct m as [|[p|p|]|[p|p|]]; simpl; lia.
Qed.

Lemma shr_fexp_nonneg m e l :
  0 <= m -> 0 <= shr_m (fst (shr_fexp prec emax m e l)).
Proof.
  intros Hm. unfold shr_fexp, shr.
  assert (H0 : 0 <= shr_m (shr_record_of_loc m l))
    by (destruct l as [|[]]; exact Hm).
  destruct (fexp prec emax (Zdigits2 m + e) - e) as [|p|p]; simpl; try done.
  by apply (iter_pos_invariant shr_1 (fun x => 0 <= shr_m x) shr_1_nonneg).
Qed.

Lemma round_nearest_even_nonneg m l :
  0 <= m -> 0 <= round_nearest_even m l.
Proof.
  intros Hm. destruct l as [|[]]; simpl; try lia.
  destruct (Z.even m); lia.
Qed.

(** Rounding a non-negative mantissa gives a zero, a finite number or an
    infinity of the given sign. *)
Lemma binary_round_aux_has_sign sx mx ex lx :
  0 <= mx -> has_sign sx (binary_round_aux prec emax sx mx ex lx).
Proof.
  intros Hm. unfold binary_round_aux.
  pose proof (shr_fexp_nonneg mx ex lx Hm) as H1.
  destruct (shr_fexp prec emax mx ex lx) as [mrs' e']. simpl in H1.
  pose proof (shr_fexp_nonneg _ e' loc_Exact
                (round_nearest_even_nonneg _ (loc_of_shr_record mrs') H1)) as H2.
  destruct (shr_fexp prec emax _ e' loc_Exact) as [mrs'' e'']. simpl in H2.
  destruct (shr_m mrs'') as [|p|p]; simpl; [done| |lia].
  by destruct (e'' <=? emax - prec).
Qed.

Lemma binary_normalize_not_nan m e szero :
  binary_normalize prec emax m e szero <> S754_nan.
Proof.
  unfold binary_normalize, binary_round.
  destruct m as [|p|p]; [done|..];
    destruct (shl_align _ _ _) as [mz ez];
    match goal with
    | |- binary_round_aux ?p ?m ?sx ?mx ?ex ?lx <> _ =>
        pose proof (binary_round_aux_has_sign sx mx ex lx ltac:(lia)) as H;
        intros Hn; rewrite Hn in H; exact H
    end.
Qed.

(** A difference is NaN only when an operand is NaN or both are the same
    infinity. *)
Lemma sub_nan x y :
  sub x y = NaN ->
  x = NaN \/ y = NaN \/ exists s, x = S754_infinity s /\ y = S754_infinity s.
Proof.
  unfold sub, SFsub, NaN.
  destruct x as [sx|sx| |sx mx ex], y as [sy|sy| |sy my ey]; intros H;
    try (by left); try (by right; left); try discriminate H.
  - destruct sx, sy; try discriminate H.
  - right; right. destruct sx, sy; try discriminate H; eauto.
  - by apply binary_normalize_not_nan in H.
Qed.

End JsExtraFacts.

(** ** What the tracker shows *)
Module ProgressViewFacts.

Import QueryProgressStore ProgressTracker ProgressRun ProgressView.

Lemma completedSteps_le l : (completedSteps l <= length l)%nat.
Proof. apply length_filter. Qed.

(** Up to 39 steps the percentage agrees with integer arithmetic. *)
Lemma percent_up_to_39 :
  Forall (fun n => Forall (fun k =>
      Js.Math_round
        (Js.mul (Js.div (Js.of_Z (Z.of_nat k)) (Js.of_Z (Z.of_nat n)))
                (Js.of_Z 100))
      = Js.of_Z (percent_Z (Z.of_nat k) (Z.of_nat n)) /\
      0 <= percent_Z (Z.of_nat k) (Z.of_nat n) <= 100 /\
      (percent_Z (Z.of_nat k) (Z.of_nat n) = 100 <-> k = n) /\
      (percent_Z (Z.of_nat k) (Z.of_nat n) = 0 <-> k = 0%nat))
    (seq 0 (S n))) (seq 1 39).
Proof. apply (bool_decide_unpack _). vm_compute. exact I. Qed.

(** X10: with no steps (before [initialize] and after [reset]) the
    percentage is NaN.  With 1 to 39 steps it is the share of completed
    steps in percent, rounded half up, as a whole number from 0 to 100; it
    is 100 exactly when every step is completed and 0 exactly when none
    is. *)
Theorem progressPercent_small l :
  (l = [] -> progressPercent l = Js.NaN) /\
  ((0 < length l <= 39)%nat ->
   let p := percent_Z (Z.of_nat (completedSteps l)) (Z.of_nat (length l)) in
   progressPercent l = Js.of_Z p /\
   0 <= p <= 100 /\
   (p = 100 <-> completedSteps l = length l) /\
   (p = 0 <-> completedSteps l = 0%nat)).
Proof.
  split; [by intros ->|]. intros Hn.
  pose proof percent_up_to_39 as H. rewrite Forall_forall in H.
  specialize (H (length l)). rewrite Forall_forall in H.
  apply H.
  - apply elem_of_seq. lia.
  - apply elem_of_seq. pose proof (completedSteps_le l). lia.
Qed.

Lemma progressPercent_small_witness :
  let l := steps (completeStep "b" None (fun _ => 1)
                    (initialize [("a", "A"); ("b", "B"); ("c", "C")]%string
                       initial)) in
  let p := percent_Z (Z.of_nat (completedSteps l)) (Z.of_nat (length l)) in
  progressPercent l = Js.of_Z p /\
  0 <= p <= 100 /\
  (p = 100 <-> completedSteps l = length l) /\
  (p = 0 <-> completedSteps l = 0%nat).
Proof.
  apply (proj2 (progressPercent_small
                  (steps (completeStep "b" None (fun _ => 1)
                            (initialize [("a", "A"); ("b", "B"); ("c", "C")]%string
                               initial))))).
  simpl. lia.
Defined.

(** With 40 steps of which 23 are completed the share is 57.5 percent, but
    the quotient computed in binary64 lies below 0.575 and 57 is shown. *)
Example percent_23_of_40 :
  Js.Math_round
    (Js.mul (Js.div (Js.of_Z 23) (Js.of_Z 40)) (Js.of_Z 100)) = Js.of_Z 57 /\
  percent_Z 23 40 = 58.
Proof. split; reflexivity. Qed.

Lemma onmessages_identity evs st :
  identity (steps (onmessages evs st)) = identity (steps st).
Proof.
  revert st. induction evs as [|[payload now] evs IH]; intros st; [done|].
  unfold onmessages in *. simpl. rewrite IH.
  unfold handleProgressEvent. destruct (dispatch payload) as [c|]; [|done].
  apply ProgressStoreFacts.perform_keeps_identity.
Qed.

(** X12: once [initialize(DEFAULT_STEPS)] has run, whatever events are
    handled after it, the store holds the five default steps and the
    percentage is 20 times the number of completed steps: one of 0, 20, 40,
    60, 80, 100.  In the initial state of the store and after [reset], which
    is what the component reads when it renders before its effect has
    called [initialize], there are no steps and the percentage is NaN. *)
Theorem initialized_percent_is_multiple_of_20 st0 evs :
  let l := steps (onmessages evs (initialize DEFAULT_STEPS st0)) in
  (identity l = DEFAULT_STEPS /\
   (completedSteps l <= 5)%nat /\
   progressPercent l = Js.of_Z (20 * Z.of_nat (completedSteps l))) /\
  progressPercent (steps initial) = Js.NaN /\
  progressPercent (steps (reset st0)) = Js.NaN.
Proof.
  cbv zeta. split; [|split; reflexivity].
  pose proof (onmessages_identity evs (initialize DEFAULT_STEPS st0)) as Hid.
  unfold identity at 2 in Hid.
  rewrite (proj1 (ProgressStoreFacts.initialize_identity DEFAULT_STEPS st0))
    in Hid.
  set (l := steps (onmessages evs (initialize DEFAULT_STEPS st0))) in *.
  assert (Hlen : length l = 5%nat).
  { rewrite <- (length_map (fun s => (id s, label s)) l).
    fold (identity l). by rewrite Hid. }
  pose proof (completedSteps_le l) as Hle. rewrite Hlen in Hle.
  split; [done|]. split; [done|].
  unfold progressPercent. rewrite Hlen.
  destruct (completedSteps l) as [|[|[|[|[|[|k]]]]]];
    [vm_compute; reflexivity..|lia].
Qed.

(** X13: when an ETA is shown, it is never negative: it is [+0], a positive
    number or [+Infinity], and it is NaN only when the elapsed time is NaN
    or the estimate and the elapsed time are the same infinity.  An
    estimate of 0 or NaN shows no ETA. *)
Theorem remainingSeconds_not_negative estimated elapsed r :
  remainingSeconds estimated elapsed = Some r ->
  (exists e, estimated = Some e /\ JsExtra.truthy e = true) /\
  (r = Js.NaN \/ JsExtra.nonnegative r) /\
  (r = Js.NaN ->
   elapsed = Js.NaN \/
   exists s, estimated = Some (S754_infinity s) /\ elapsed = S754_infinity s).
Proof.
  unfold remainingSeconds. destruct estimated as [e|]; [|discriminate].
  destruct (JsExtra.truthy e) eqn:He; [|discriminate].
  intros [= <-]. split; [eauto|].
  assert (Hmax : forall b,
            (Js.Math_max (Js.of_Z 0) b = Js.NaN <-> b = Js.NaN) /\
            (Js.Math_max (Js.of_Z 0) b = Js.NaN \/
             JsExtra.nonnegative (Js.Math_max (Js.of_Z 0) b))).
  { intros b. change (Js.of_Z 0) with (S754_zero false).
    unfold Js.Math_max, Js.NaN.
    destruct b as [s|s| |s m ex]; simpl.
    - split; [split; discriminate|by right].
    - destruct s; simpl; (split; [split; discriminate|by right]).
    - split; [done|by left].
    - destruct s; simpl; (split; [split; discriminate|by right]). }
  destruct (Hmax (JsExtra.sub e elapsed)) as [Hnan Hsign].
  split; [done|].
  intros Hr. apply Hnan in Hr.
  destruct (JsExtraFacts.sub_nan _ _ Hr) as [->|[->|(s & -> & ->)]].
  - discriminate He.
  - by left.
  - right. eauto.
Qed.

Lemma remainingSeconds_not_negative_witness :
  (exists e, Some (Js.of_Z 30) = Some e /\ JsExtra.truthy e = true) /\
  (Js.of_Z 0 = Js.NaN \/ JsExtra.nonnegative (Js.of_Z 0)) /\
  (Js.of_Z 0 = Js.NaN ->
   Js.of_Z 45 = Js.NaN \/
   exists s, Some (Js.of_Z 30) = Some (S754_infinity s) /\
             Js.of_Z 45 = S754_infinity s).
Proof.
  apply (remainingSeconds_not_negative
           (Some (Js.of_Z 30)) (Js.of_Z 45) (Js.of_Z 0)).
  reflexivity.
Defined.

End ProgressViewFacts.

(** ** More on the query configuration store *)
Module QueryStoreLaws.

Import QueryStore.

Lemma toggle_membership x (l : list string) :
  (x ∈ toggle x l <-> x ∉ l) /\
  (forall y, y ≠ x -> (y ∈ toggle x l <-> y ∈ l)).
Proof.
  unfold toggle. destruct (decide (x ∈ l)) as [Hin|Hout]; split.
  - rewrite list_elem_of_filter. split; [intros [H _]; done|done].
  - intros y Hy. rewrite list_elem_of_filter. split; [by intros [_ H]|done].
  - rewrite elem_of_app, list_elem_of_singleton. split; [done|by right].
  - intros y Hy. rewrite elem_of_app, list_elem_of_singleton.
    split; [by intros [H|H]|by left].
Qed.

(** X14: [toggleSource] and [toggleLLM] flip the membership of the given
    id, removing every occurrence when it is present, and change the
    membership of no other id. *)
Theorem toggle_flips_membership x st :
  ((x ∈ sources (toggleSource x st) <-> x ∉ sources st) /\
   (forall y, y ≠ x ->
      (y ∈ sources (toggleSource x st) <-> y ∈ sources st))) /\
  ((x ∈ llms (toggleLLM x st) <-> x ∉ llms st) /\
   (forall y, y ≠ x -> (y ∈ llms (toggleLLM x st) <-> y ∈ llms st))).
Proof. split; apply toggle_membership. Qed.

Lemma toggle_flips_membership_witness :
  "pubmed"%string ∈ sources (toggleSource "openalex" DEFAULT_STATE) <->
  "pubmed"%string ∈ sources DEFAULT_STATE.
Proof.
  apply (proj2 (proj1 (toggle_flips_membership "openalex"%string DEFAULT_STATE))
           "pubmed"%string).
  discriminate.
Defined.

Lemma filter_ne_length x (l : list string) :
  NoDup l -> x ∈ l -> S (length (filter (fun s => s ≠ x) l)) = length l.
Proof.
  induction 1 as [|y l Hy Hnd IH]; [by intros ?%elem_of_nil|].
  intros [->|Hx]%elem_of_cons.
  - rewrite filter_cons_False by (intros H; by apply H).
    by rewrite QueryStoreFacts.filter_ne_absent.
  - rewrite filter_cons_True by (intros ->; done). simpl. by rewrite IH.
Qed.

(** X15: a toggle keeps the other ids in the order they had, keeps a
    selection without duplicates free of duplicates, and then changes its
    length by exactly one. *)
Theorem toggleSource_keeps_order x st :
  filter (fun s => s ≠ x) (sources (toggleSource x st))
  = filter (fun s => s ≠ x) (sources st) /\
  (NoDup (sources st) ->
   NoDup (sources (toggleSource x st)) /\
   length (sources (toggleSource x st))
   = if decide (x ∈ sources st) then pred (length (sources st))
     else S (length (sources st))).
Proof.
  simpl. unfold toggle. set (l := sources st).
  destruct (decide (x ∈ l)) as [Hin|Hout].
  - split.
    + apply list_filter_filter_l. done.
    + intros Hnd. split; [by apply NoDup_filter|].
      rewrite <- (filter_ne_length x l Hnd Hin). done.
  - split.
    + rewrite filter_app. rewrite filter_cons_False by (intros H; by apply H).
      by rewrite filter_nil, app_nil_r.
    + intros Hnd. split.
      * apply NoDup_app. split; [done|]. split; [|apply NoDup_singleton].
        intros y Hy ->%list_elem_of_singleton. done.
      * rewrite length_app. simpl. lia.
Qed.

Lemma toggleSource_keeps_order_witness :
  NoDup (sources (toggleSource "pubmed" DEFAULT_STATE)) /\
  length (sources (toggleSource "pubmed" DEFAULT_STATE))
  = if decide ("pubmed"%string ∈ sources DEFAULT_STATE)
    then pred (length (sources DEFAULT_STATE))
    else S (length (sources DEFAULT_STATE)).
Proof.
  apply (proj2 (toggleSource_keeps_order "pubmed"%string DEFAULT_STATE)).
  simpl. apply NoDup_cons. split.
  - intros H. apply list_elem_of_In in H. simpl in H.
    destruct H as [H|[]]. discriminate H.
  - apply NoDup_singleton.
Defined.

Lemma toggle_three_times x (l : list string) :
  toggle x (toggle x (toggle x l)) = toggle x l.
Proof.
  destruct (decide (x ∈ l)) as [Hin|Hout].
  - rewrite (QueryStoreFacts.toggle_present x l) by done.
    unfold toggle at 1.
    rewrite decide_True by (apply elem_of_app; right; by left).
    rewrite filter_app, filter_cons_False by (intros H; by apply H).
    rewrite filter_nil, app_nil_r.
    unfold toggle. rewrite decide_True by done.
    apply list_filter_filter_l. done.
  - by rewrite (QueryStoreFacts.toggle_absent x l).
Qed.

(** X16: three toggles of an id are one toggle: after the first toggle the
    list alternates between two values. *)
Theorem toggleSource_three_times x st :
  toggleSource x (toggleSource x (toggleSource x st)) = toggleSource x st /\
  toggleLLM x (toggleLLM x (toggleLLM x st)) = toggleLLM x st.
Proof.
  unfold toggleSource, toggleLLM; simpl.
  by rewrite !toggle_three_times.
Qed.

(** X17: two [setOptions] in a row are one [setOptions] with the merged
    partial, the later keys winning; repeating a [setOptions] changes
    nothing, and the empty partial changes nothing. *)
Theorem setOptions_composes p1 p2 st :
  setOptions p2 (setOptions p1 st) = setOptions (PartialOptions.merge p1 p2) st /\
  setOptions p1 (setOptions p1 st) = setOptions p1 st /\
  setOptions PartialOptions.empty st = st.
Proof.
  destruct st as [q s l [sd mr df dt oa]].
  destruct p1 as [a1 b1 c1 d1 e1], p2 as [a2 b2 c2 d2 e2].
  unfold setOptions, spread_options, PartialOptions.merge; simpl.
  repeat split; f_equal; f_equal;
    repeat match goal with
           | |- context [default _ ?o] => destruct o; simpl
           end; reflexivity.
Qed.

End QueryStoreLaws.

(** ** [cn] *)
Module UtilsFacts.

Import Utils.

Lemma append_assoc (s1 s2 s3 : string) :
  (s1 +:+ s2) +:+ s3 = s1 +:+ s2 +:+ s3.
Proof.
  induction s1 as [|a s1 IH]; [reflexivity|].
  change (String a ((s1 +:+ s2) +:+ s3) = String a (s1 +:+ s2 +:+ s3)).
  by f_equal.
Qed.

Lemma append_nonempty (s1 s2 : string) : s1 ≠ ""%string -> s1 +:+ s2 ≠ ""%string.
Proof. by destruct s1. Qed.

(** The strings that [cn] joins. *)
Lemma kept_nonempty (l : list ClassValue) :
  Forall (fun s => s ≠ ""%string) (map (default ""%string) (filter Boolean l)).
Proof.
  induction l as [|c l IH]; simpl; [constructor|].
  rewrite filter_cons. destruct (decide (Boolean c)) as [Hc|Hc]; [|done].
  simpl. constructor; [|done]. by destruct c.
Qed.

Lemma join_nonempty sep (l : list string) :
  Forall (fun s => s ≠ ""%string) l -> l ≠ [] -> join sep l ≠ ""%string.
Proof.
  intros Hl Hne. destruct l as [|x [|y l]]; [done|..];
    inversion Hl; subst; simpl; [done|]. by apply append_nonempty.
Qed.

Lemma join_app sep (l1 l2 : list string) :
  l1 ≠ [] -> l2 ≠ [] ->
  join sep (l1 ++ l2) = join sep l1 +:+ sep +:+ join sep l2.
Proof.
  intros H1 H2. induction l1 as [|x l1 IH]; [done|].
  destruct l1 as [|y l1].
  - simpl. by destruct l2.
  - change (join sep ((x :: y :: l1) ++ l2))
      with (x +:+ sep +:+ join sep ((y :: l1) ++ l2)).
    rewrite IH by done.
    change (join sep (x :: y :: l1)) with (x +:+ sep +:+ join sep (y :: l1)).
    by rewrite !append_assoc.
Qed.

Lemma cn_empty_iff (l : list ClassValue) :
  cn l = ""%string <-> filter Boolean l = [].
Proof.
  unfold cn. split.
  - intros H. destruct (filter Boolean l) as [|c k] eqn:E; [done|].
    exfalso. revert H. apply join_nonempty; [|done].
    rewrite <- E. apply kept_nonempty.
  - by intros ->.
Qed.

(** X18: [cn] returns the empty string exactly when every argument is
    falsy, and nesting calls is the same as passing all the arguments to one
    call: [cn(cn(...a), cn(...b)) = cn(...a, ...b)], so a class name built
    with [cn] can be handed to [cn] again without stray spaces. *)
Theorem cn_nested (a b : list ClassValue) :
  (cn a = ""%string <-> Forall (fun c => ~ Boolean c) a) /\
  cn [Some (cn a); Some (cn b)] = cn (a ++ b).
Proof.
  split.
  - rewrite cn_empty_iff. split.
    + intros H. apply Forall_forall. intros c Hc Hb.
      assert (Hin : c ∈ filter Boolean a) by (by apply list_elem_of_filter).
      rewrite H in Hin. by apply elem_of_nil in Hin.
    + intros H. induction a as [|c a IH]; [done|].
      inversion H; subst. rewrite filter_cons_False by done. by apply IH.
  - unfold cn at 1. rewrite !filter_cons, filter_nil. simpl Boolean.
    destruct (decide (cn a ≠ ""%string)) as [Ha|Ha];
      destruct (decide (cn b ≠ ""%string)) as [Hb|Hb]; simpl.
    + unfold cn. rewrite filter_app, map_app.
      symmetry. apply join_app.
      * intros H. apply Ha. unfold cn. by rewrite H.
      * intros H. apply Hb. unfold cn. by rewrite H.
    + assert (Eb : filter Boolean b = [])
        by (apply cn_empty_iff; by destruct (decide (cn b = ""%string))).
      unfold cn. by rewrite filter_app, Eb, app_nil_r.
    + assert (Ea : filter Boolean a = [])
        by (apply cn_empty_iff; by destruct (decide (cn a = ""%string))).
      unfold cn. by rewrite filter_app, Ea.
    + assert (Ea : filter Boolean a = [])
        by (apply cn_empty_iff; by destruct (decide (cn a = ""%string))).
      assert (Eb : filter Boolean b = [])
        by (apply cn_empty_iff; by destruct (decide (cn b = ""%string))).
      unfold cn. by rewrite filter_app, Ea, Eb.
Qed.

End UtilsFacts.

(** ** The query form *)
Module QueryBuilderFacts.

Import QueryBuilder.

Lemma includes_spec value (current : list string) :
  includes value current = true <-> value ∈ current.
Proof.
  induction current as [|item rest IH]; simpl.
  - split; [discriminate|by intros ?%elem_of_nil].
  - rewrite orb_true_iff, IH, elem_of_cons, String.eqb_eq.
    split; intros [H|H]; auto.
Qed.

Lemma without_spec value (current : list string) :
  without value current = filter (fun s => s ≠ value) current.
Proof.
  induction current as [|item rest IH]; simpl; [done|].
  rewrite filter_cons. destruct (String.eqb_spec item value) as [->|Hne].
  - by rewrite decide_False by (intros H; by apply H).
  - rewrite decide_True by done. by rewrite IH.
Qed.

Lemma toggleArrayValue_spec current value :
  toggleArrayValue current value = QueryStore.toggle value current.
Proof.
  unfold toggleArrayValue, QueryStore.toggle.
  destruct (includes value current) eqn:E.
  - rewrite decide_True by (by apply includes_spec). apply without_spec.
  - rewrite decide_False; [done|].
    intros H. apply includes_spec in H. congruence.
Qed.

(** X19: the toggle of the form and the toggle of the store agree: toggling
    a source in the form and copying the form into the store gives the
    sources that [toggleSource] gives on the store that mirrors the form.
    The copy takes every field from the form, so the store after it does
    not depend on what it held before. *)
Theorem form_toggle_agrees_with_store value l x st st' :
  sources value = Some l ->
  QueryStore.sources
    (syncToStore (with_sources (toggleArrayValue l x) value) st)
  = QueryStore.sources (QueryStore.toggleSource x (syncToStore value st)) /\
  syncToStore value st = syncToStore value st'.
Proof.
  intros Hl. split; [|reflexivity].
  simpl. rewrite Hl. simpl. apply toggleArrayValue_spec.
Qed.

Lemma form_toggle_agrees_with_store_witness :
  let value := {| query := Some "q"%string;
                  sources := Some ["openalex"; "pubmed"]%string;
                  llms := Some ["claude"%string];
                  searchDepth := Some CostCalculator.quick;
                  maxResults := None; openAccessOnly := None;
                  dateFrom := None; dateTo := None |} in
  QueryStore.sources
    (syncToStore
       (with_sources (toggleArrayValue ["openalex"; "pubmed"]%string "openalex")
          value) QueryStore.DEFAULT_STATE)
  = QueryStore.sources
      (QueryStore.toggleSource "openalex"
         (syncToStore value QueryStore.DEFAULT_STATE)) /\
  syncToStore value QueryStore.DEFAULT_STATE
  = syncToStore value (QueryStore.setQuery "old" QueryStore.DEFAULT_STATE).
Proof.
  apply (form_toggle_agrees_with_store
           {| query := Some "q"%string;
              sources := Some ["openalex"; "pubmed"]%string;
              llms := Some ["claude"%string];
              searchDepth := Some CostCalculator.quick;
              maxResults := None; openAccessOnly := None;
              dateFrom := None; dateTo := None |}
           ["openalex"; "pubmed"]%string "openalex"%string).
  reflexivity.
Defined.

Lemma take_10_cons {T : Type} (v : T) (l : list T) :
  take 10 (v :: take 10 l) = take 10 (v :: l).
Proof. simpl. f_equal. by rewrite take_take. Qed.

Lemma saveAll_Templates {T : Type} (vs : list T) (l : list T) :
  vs ≠ [] ->
  saveAll vs (Templates l) = Templates (take 10 (rev vs ++ l)).
Proof.
  revert l. induction vs as [|v vs IH]; intros l Hne; [done|].
  unfold saveAll in *. simpl fold_left.
  destruct vs as [|w vs].
  - done.
  - rewrite IH by done. f_equal.
    change (rev (v :: w :: vs)) with (rev (w :: vs) ++ [v]).
    rewrite <- app_assoc. simpl app.
    rewrite (take_app (rev (w :: vs)) (v :: take 9 l)).
    rewrite (take_app (rev (w :: vs)) (v :: l)).
    f_equal.
    destruct (10 - length (rev (w :: vs)))%nat as [|n] eqn:E; [done|].
    simpl. f_equal. rewrite take_take. f_equal. lia.
Qed.

(** X20: after a number of templates are saved one after the other, the
    storage holds the newest first and at most ten: the ten first of the
    saved templates in reverse order followed by what was stored.  When the
    stored text does not parse to a list, it stays as it is and every save
    is dropped. *)
Theorem saveAll_keeps_newest_ten {T : Type} (vs l : list T) :
  vs ≠ [] ->
  saveAll vs (Templates l) = Templates (take 10 (rev vs ++ l)) /\
  saveAll vs Missing = Templates (take 10 (rev vs)) /\
  saveAll vs Corrupt = @Corrupt T /\
  (forall k, saveAll vs (Templates l) = Templates k -> (length k <= 10)%nat).
Proof.
  intros Hne. split; [by apply saveAll_Templates|]. split; [|split].
  - destruct vs as [|v vs]; [done|].
    destruct vs as [|w vs]; [done|].
    change (saveAll (v :: w :: vs) Missing)
      with (saveAll (w :: vs) (Templates [v])).
    rewrite saveAll_Templates by done.
    change (rev (v :: w :: vs)) with (rev (w :: vs) ++ [v]). done.
  - clear. induction vs as [|v vs IH]; [done|]. apply IH.
  - intros k. rewrite saveAll_Templates by done. intros [= <-].
    rewrite length_take. lia.
Qed.

Lemma saveAll_keeps_newest_ten_witness :
  saveAll (seq 1 12) (Templates [0%nat]) = Templates (rev (seq 3 10)).
Proof.
  apply (proj1 (saveAll_keeps_newest_ten (seq 1 12) [0%nat]
                  ltac:(discriminate))).
Defined.

End QueryBuilderFacts.

(** ** More on the estimator *)
Module CostCalculatorLaws.

Import Js JsExtra CostCalculator.

Lemma has_sign_nonnegative x : has_sign false x -> nonnegative x.
Proof. destruct x as [s|s| |s m e]; simpl; try done; by intros ->. Qed.

Lemma of_ratio_nonnegative n d : nonnegative (of_ratio n d).
Proof.
  apply has_sign_nonnegative. unfold of_ratio, SFdiv_core_binary.
  set (m' := match _ - _ with
             | Z0 => Zpos n
             | Zpos _ => Z.shiftl (Zpos n) _
             | Zneg _ => 0
             end).
  assert (Hm : 0 <= m').
  { subst m'. destruct (_ - _); [lia| |lia]. apply Z.shiftl_nonneg. lia. }
  pose proof (Z_div_mod m' (Zpos d) ltac:(lia)) as Hdm.
  destruct (Z.div_eucl m' (Zpos d)) as [q r].
  apply JsExtraFacts.binary_round_aux_has_sign. nia.
Qed.

Lemma flooredCost_sign config :
  flooredCost config = NaN \/ nonnegative (flooredCost config).
Proof.
  unfold flooredCost.
  match goal with
  | |- Math_max MINIMUM_COST ?t = _ \/ _ => generalize t
  end.
  intros t. unfold Math_max.
  replace MINIMUM_COST with (S754_finite false 4503599627370496 (-53))
    by (vm_compute; reflexivity).
  destruct t as [s|s| |s m e]; unfold SFcompare.
  - by right.
  - destruct s; by right.
  - by left.
  - destruct s; [by right|].
    destruct (-53 ?= e); [|by right..].
    destruct (Pos.compare_cont Eq 4503599627370496 m); by right.
Qed.

(** X21: the number that [calculateQueryCost] returns is never negative and
    never [-0]; it is NaN exactly when the total handed to the rounding is
    NaN. *)
Theorem calculateQueryCost_not_negative config :
  (calculateQueryCost config = NaN <-> flooredCost config = NaN) /\
  (calculateQueryCost config <> NaN -> nonnegative (calculateQueryCost config)).
Proof.
  pose proof (flooredCost_sign config) as Hsign.
  unfold calculateQueryCost, toFixed.
  destruct (to_Q (flooredCost config)) as [q|] eqn:Hq.
  - pose proof (CostCalculatorFacts.flooredCost_positive _ _ Hq) as Hpos.
    assert (Hfin : flooredCost config <> NaN)
      by (intros H; rewrite H in Hq; discriminate Hq).
    destruct (Qle_bool (inject_Z (10 ^ 21)) (Qabs q)).
    + simpl. split; [done|]. intros _. by destruct Hsign.
    + replace (Qle_bool 0 q) with true
        by (symmetry; apply Qle_bool_iff; lra).
      simpl negb.
      assert (Hn : 0 <= toFixed_n (Qabs q) 2).
      { rewrite JsFacts.toFixed_n_half_up.
        assert (Hq0 : (0 <= Qabs q * pow10 2 + (1 # 2))%Q).
        { pose proof (Qabs_nonneg q). change (pow10 2) with 100%Q. lra. }
        apply Qfloor_resp_le in Hq0. exact Hq0. }
      unfold parseFloat.
      destruct (toFixed_n (Qabs q) 2) as [|p|p]; [| |lia].
      * split; [split; [discriminate|done]|done].
      * pose proof (of_ratio_nonnegative p (Z.to_pos (10 ^ Z.of_nat 2))) as H.
        split; [|done]. split; [|done].
        intros Hnan. rewrite Hnan in H. done.
  - simpl. split; [done|]. intros Hn. by destruct Hsign.
Qed.

Lemma calculateQueryCost_not_negative_witness :
  nonnegative
    (calculateQueryCost
       {| sources := ["openalex"%string]; llms := []; depth := deep;
          maxResults := Some (of_Z 40) |}).
Proof.
  apply (proj2 (calculateQueryCost_not_negative
                  {| sources := ["openalex"%string]; llms := []; depth := deep;
                     maxResults := Some (of_Z 40) |})).
  vm_compute. discriminate.
Defined.

(** X22: the cost depends on the order in which the sources were selected.
    With the four sources of the table, the free model, depth quick and 60
    results the total is 0.825 in decimal arithmetic; in table order the
    function returns 0.83, and after openalex is toggled off and on again,
    which moves it to the end of the list, it returns 0.82.  So the cost is
    not a function of the set of selected sources. *)
Theorem cost_depends_on_selection_order :
  let table_order := ["openalex"; "google-patents"; "pubmed"; "document-vault"]%string in
  let toggled := QueryStore.toggle "openalex" (QueryStore.toggle "openalex" table_order) in
  let cost l := calculateQueryCost
                  {| sources := l; llms := ["ollama"%string]; depth := quick;
                     maxResults := Some (of_Z 60) |} in
  toggled ≡ₚ table_order /\
  cost table_order = of_ratio 83 100 /\
  cost toggled = of_ratio 82 100 /\
  ~ (forall l1 l2 ls d mr,
       l1 ≡ₚ l2 ->
       calculateQueryCost {| sources := l1; llms := ls; depth := d; maxResults := mr |}
       = calculateQueryCost {| sources := l2; llms := ls; depth := d; maxResults := mr |}).
Proof.
  assert (Hperm : ["google-patents"; "pubmed"; "document-vault"; "openalex"]%string
                  ≡ₚ ["openalex"; "google-patents"; "pubmed"; "document-vault"]%string).
  { symmetry.
    exact (Permutation_cons_append
             ["google-patents"; "pubmed"; "document-vault"]%string
             "openalex"%string). }
  split; [exact Hperm|]. split; [vm_compute; reflexivity|].
  split; [vm_compute; reflexivity|].
  intros H.
  specialize (H _ _ ["ollama"%string] quick (Some (of_Z 60)) Hperm).
  vm_compute in H. discriminate H.
Qed.

(** X23: for whole numbers of sources and models up to 60, the estimated
    duration is a whole number of seconds from 8 to 67; it does not
    decrease when a source or a model is added, and stops growing at 5
    sources and at 4 models. *)
Theorem estimateQueryDuration_bounds d (s l : nat) :
  (s <= 60)%nat -> (l <= 60)%nat ->
  let n := duration_Z d (Z.of_nat s) (Z.of_nat l) in
  estimateQueryDuration d (of_Z (Z.of_nat s)) (of_Z (Z.of_nat l)) = of_Z n /\
  8 <= n <= 67 /\
  n <= duration_Z d (Z.of_nat (S s)) (Z.of_nat l) /\
  n <= duration_Z d (Z.of_nat s) (Z.of_nat (S l)) /\
  ((5 <= s)%nat -> n = duration_Z d 5 (Z.of_nat l)) /\
  ((4 <= l)%nat -> n = duration_Z d (Z.of_nat s) 4).
Proof.
  intros Hs Hl n.
  split; [by apply CostCalculatorFacts.estimateQueryDuration_whole_counts|].
  subst n. unfold duration_Z.
  split; [split|split; [|split; [|split; intros ?]]]; destruct d;
    Z.div_mod_to_equations; lia.
Qed.

Lemma estimateQueryDuration_bounds_witness :
  let n := duration_Z deep 3 2 in
  estimateQueryDuration deep (of_Z 3) (of_Z 2) = of_Z n /\
  8 <= n <= 67 /\
  n <= duration_Z deep 4 2 /\
  n <= duration_Z deep 3 3 /\
  ((5 <= 3)%nat -> n = duration_Z deep 5 2) /\
  ((4 <= 2)%nat -> n = duration_Z deep 3 4).
Proof.
  apply (estimateQueryDuration_bounds deep 3 2); lia.
Defined.

End CostCalculatorLaws.
